(** * deepalert: the repository service (report assignment, attribute
      dispatch dedup, finding aggregation)

    A shallow embedding of [package service] (type [RepositoryService] and
    its methods) and of the [adaptor.Repository] interface it is written
    against, followed by the properties of the engine.

    Conventions of the embedding:
    - a Go [string] is a [string]; [fmt.Sprintf("alert/%s", id)] is
      concatenation;
    - a [time.Time] is the instant it denotes, in nanoseconds since the Unix
      epoch (a [Z]); [UTC()] does not change the instant;
    - a Go result [(v, err)] is a pair whose second component is an
      [option error]; a nil pointer or nil slice is [None] or [[]];
    - a method that goes to the store takes the state before the call and
      returns the state after it together with its results;
    - a Go [map[string]*T] is a [gmap string T]; a write through the stored
      pointer is an insert at the same key. *)

From Stdlib Require Import ZArith.
From stdpp Require Import gmap strings pretty list fin_maps.

Local Open Scope Z_scope.

(** ** package time *)

Module time.

(** [time.Duration] is an [int64] count of nanoseconds. *)
Definition Duration := Z.

Definition wrap64 (z : Z) : Z := (z + 2 ^ 63) mod 2 ^ 64 - 2 ^ 63.

Definition Second : Duration := 1000000000.

(** [time.Duration(ttl) * time.Second]: an [int64] product. *)
Definition seconds (ttl : Z) : Duration := wrap64 (wrap64 ttl * Second).

(** An instant, in nanoseconds since January 1, 1970 UTC. *)
Record Time := mkTime { unixNano : Z }.

Definition UTC (t : Time) : Time := t.

Definition Add (t : Time) (d : Duration) : Time := mkTime (unixNano t + d).

(** [t.Unix()]: whole seconds since the epoch, rounded down. *)
Definition Unix (t : Time) : Z := unixNano t / Second.

(** [time.Unix(sec, nsec)]. *)
Definition FromUnix (sec nsec : Z) : Time := mkTime (sec * Second + nsec).

#[export] Instance Time_eq_dec : EqDecision Time.
Proof. solve_decision. Defined.

End time.

Import time.

(** ** package deepalert: the data model *)

Definition ReportID := string.

(** [deepalert.ContentType] is a string type with three declared constants;
    every other value is [ContentOther]. *)
Inductive ContentType :=
| ContentHost
| ContentUser
| ContentBinary
| ContentOther (tag : string).

Inductive ReportStatus := StatusNew | StatusMore.

Record Attribute := mkAttribute {
  attr_Type : string;
  attr_Key : string;
  attr_Value : string;
  attr_Context : list string;
  attr_Timestamp : option Time
}.

#[export] Instance ContentType_eq_dec : EqDecision ContentType.
Proof. solve_decision. Defined.
#[export] Instance ReportStatus_eq_dec : EqDecision ReportStatus.
Proof. solve_decision. Defined.
#[export] Instance Attribute_eq_dec : EqDecision Attribute.
Proof. solve_decision. Defined.

Section Deepalert.

(** The declarations of the content payloads and of the alert, and the two
    fingerprint methods, live in package [deepalert]; the service only
    moves these values around and calls the fingerprints. *)
Context {ReportHost ReportUser ReportBinary Alert : Type}.
Variable AlertID : Alert -> string.
Variable Hash : Attribute -> string.

(** The dynamic value of an [interface{}] field: a pointer to one of the
    three content types, or anything else (nil included). *)
Inductive Content :=
| PtrReportHost (c : ReportHost)
| PtrReportUser (c : ReportUser)
| PtrReportBinary (c : ReportBinary)
| OtherValue (repr : string).

Record InspectReport := mkInspectReport {
  ir_ReportID : ReportID;
  ir_Attribute : Attribute;
  ir_Type : ContentType;
  ir_Content : Content
}.

Record ReportSection := mkReportSection {
  OriginAttr : option Attribute;
  Hosts : list ReportHost;
  Users : list ReportUser;
  Binaries : list ReportBinary
}.

Record Report := mkReport {
  ID : ReportID;
  Status : ReportStatus;
  CreatedAt : Time;
  Alerts : list Alert;
  Sections : list ReportSection
}.

(** ** package models: the stored records *)

Record RecordBase := mkRecordBase {
  PKey : string;
  SKey : string;
  ExpiresAt : Z;
  base_CreatedAt : Z
}.

Record AlertEntry := mkAlertEntry {
  ae_Base : RecordBase;
  ae_ReportID : ReportID
}.

Record AlertCache := mkAlertCache {
  ac_Base : RecordBase;
  AlertData : string
}.

Record InspectorReportRecord := mkInspectorReportRecord {
  irr_Base : RecordBase;
  Data : string
}.

Record AttributeCache := mkAttributeCache {
  atc_Base : RecordBase;
  atc_Timestamp : Time;
  AttrKey : string;
  AttrType : string;
  AttrValue : string;
  AttrContext : list string
}.

(** ** package errors *)

(** A value attached to an error by [With]. *)
Inductive ctxval :=
| VString (s : string)
| VAlert (a : Alert)
| VAttribute (a : Attribute)
| VInspectReport (r : InspectReport)
| VRecord (r : InspectorReportRecord)
| VRepo.

(** The [error] interface: an error of a collaborator (store, codec), or
    an [*errors.Error]: a message, the wrapped cause when there is one, and
    the attached values. *)
Inductive error :=
| Foreign (code : string)
| ErrNew (msg : string) (values : list (string * ctxval))
| ErrWrap (cause : error) (msg : string) (values : list (string * ctxval)).

Definition errors_New (msg : string) : error := ErrNew msg [].

Definition errors_Wrap (cause : error) (msg : string) : error :=
  ErrWrap cause msg [].

Definition With (e : error) (key : string) (v : ctxval) : error :=
  match e with
  | Foreign c => Foreign c
  | ErrNew msg values => ErrNew msg (values ++ [(key, v)])
  | ErrWrap cause msg values => ErrWrap cause msg (values ++ [(key, v)])
  end.

Definition Cause (e : error) : option error :=
  match e with
  | ErrWrap cause _ _ => Some cause
  | _ => None
  end.

Definition Message (e : error) : string :=
  match e with
  | Foreign c => c
  | ErrNew msg _ => msg
  | ErrWrap _ msg _ => msg
  end.

(** ** remapSection *)

(** [for _, section := range sections]: Go visits every entry of a map
    once, in an order it does not specify. *)
Record MapRange := mkMapRange {
  range : gmap string ReportSection -> list (string * ReportSection);
  range_perm : forall m, range m ≡ₚ map_to_list m
}.

Definition newSection (ir : InspectReport) : ReportSection :=
  mkReportSection (Some (ir_Attribute ir)) [] [] [].

Definition appendHost (s : ReportSection) (c : ReportHost) : ReportSection :=
  mkReportSection (OriginAttr s) (Hosts s ++ [c]) (Users s) (Binaries s).

Definition appendUser (s : ReportSection) (c : ReportUser) : ReportSection :=
  mkReportSection (OriginAttr s) (Hosts s) (Users s ++ [c]) (Binaries s).

Definition appendBinary (s : ReportSection) (c : ReportBinary) : ReportSection :=
  mkReportSection (OriginAttr s) (Hosts s) (Users s) (Binaries s ++ [c]).

(** One iteration of the loop over [inspectReports]. *)
Definition remapStep (sections : gmap string ReportSection) (ir : InspectReport)
  : gmap string ReportSection + error :=
  let hv := Hash (ir_Attribute ir) in
  let '(section, sections) :=
    match sections !! hv with
    | Some section => (section, sections)
    | None => (newSection ir, <[hv := newSection ir]> sections)
    end in
  match ir_Type ir with
  | ContentHost =>
      match ir_Content ir with
      | PtrReportHost c => inl (<[hv := appendHost section c]> sections)
      | _ => inr (errors_New "Can not cast content to deepalert.ReportHost")
      end
  | ContentUser =>
      match ir_Content ir with
      | PtrReportUser c => inl (<[hv := appendUser section c]> sections)
      | _ => inr (errors_New "Can not cast content to deepalert.ReportUser")
      end
  | ContentBinary =>
      match ir_Content ir with
      | PtrReportBinary c => inl (<[hv := appendBinary section c]> sections)
      | _ => inr (errors_New "Can not cast content to deepalert.ReportHost")
      end
  | ContentOther _ => inl sections
  end.

Fixpoint remapLoop (inspectReports : list InspectReport)
    (sections : gmap string ReportSection) : gmap string ReportSection + error :=
  match inspectReports with
  | [] => inl sections
  | ir :: rest =>
      match remapStep sections ir with
      | inl sections' => remapLoop rest sections'
      | inr e => inr e
      end
  end.

Definition remapSection (R : MapRange) (inspectReports : list InspectReport)
  : list ReportSection * option error :=
  match remapLoop inspectReports ∅ with
  | inl sections => (snd <$> range R sections, None)
  | inr e => ([], Some e)
  end.

(** ** package adaptor: the Repository interface *)

(** The store the service is written against. [R] is the state of the
    store. A put returns the state after it and the error, if any; a get or
    a scan returns the records, or the error. *)
Class Repository (R : Type) := {
  PutAlertEntry : R -> AlertEntry -> Time -> R * option error;
  GetAlertEntry : R -> string -> string -> AlertEntry + error;
  PutAlertCache : R -> AlertCache -> R * option error;
  GetAlertCaches : R -> string -> list AlertCache + error;
  PutInspectorReport : R -> InspectorReportRecord -> R * option error;
  GetInspectorReports : R -> string -> list InspectorReportRecord + error;
  repo_PutAttributeCache : R -> AttributeCache -> Time -> R * option error;
  GetAttributeCaches : R -> string -> list AttributeCache + error;
  repo_PutReport : R -> string -> Report -> R * option error;
  repo_GetReport : R -> string -> Report + error;
  IsConditionalCheckErr : error -> bool
}.

(** ** package service *)

Section Service.

Context {R : Type} `{Repository R}.

(** [encoding/json] on the two payloads the service stores as raw data. *)
Variable json_Marshal_Alert : Alert -> string + error.
Variable json_Unmarshal_Alert : string -> Alert + error.
Variable json_Marshal_InspectReport : InspectReport -> string + error.
Variable json_Unmarshal_InspectReport : string -> InspectReport + error.

(** What a call reads and writes besides its arguments: the store, and the
    identifiers [uuid.New().String()] hands out, one after the other. *)
Record World := mkWorld {
  repo : R;
  uuids : nat -> string;
  drawn : nat
}.

Definition setRepo (w : World) (r : R) : World :=
  mkWorld r (uuids w) (drawn w).

Definition uuid_New_String (w : World) : string * World :=
  (uuids w (drawn w), mkWorld (repo w) (uuids w) (S (drawn w))).

Record RepositoryService := mkRepositoryService { ttl : Duration }.

Definition NewRepositoryService (ttl : Z) : RepositoryService :=
  mkRepositoryService (seconds ttl).

Definition newReportID (w : World) : ReportID * World := uuid_New_String w.

Definition TakeReport (x : RepositoryService) (alert : Alert) (now : Time)
    (w : World) : option Report * option error * World :=
  let fixedKey := "Fixed" in
  let alertID := AlertID alert in
  let '(reportID, w) := newReportID w in
  let entry :=
    mkAlertEntry
      (mkRecordBase ("alertmap/" +:+ alertID) fixedKey
         (Unix (Add (UTC now) (ttl x))) (Unix (UTC now)))
      reportID in
  let '(r, err) := PutAlertEntry (repo w) entry now in
  let w := setRepo w r in
  match err with
  | Some err =>
      if IsConditionalCheckErr err then
        match GetAlertEntry (repo w) (PKey (ae_Base entry)) (SKey (ae_Base entry)) with
        | inr err =>
            (None,
             Some (With (errors_Wrap err "Fail to get cached reportID")
                     "AlertID" (VString alertID)),
             w)
        | inl existedEntry =>
            (Some (mkReport (ae_ReportID existedEntry) StatusMore
                     (FromUnix (base_CreatedAt (ae_Base existedEntry)) 0) [] []),
             None, w)
        end
      else
        (None,
         Some (With (With (errors_Wrap err "Fail to create new alert entry")
                       "AlertID" (VString alertID))
                 "repo" VRepo),
         w)
  | None => (Some (mkReport reportID StatusNew now [] []), None, w)
  end.

Definition toAlertCacheKey (reportID : ReportID) (w : World)
    : string * string * World :=
  let '(u, w) := uuid_New_String w in
  ("alert/" +:+ reportID, "cache/" +:+ u, w).

Definition SaveAlertCache (x : RepositoryService) (reportID : ReportID)
    (alert : Alert) (now : Time) (w : World) : option error * World :=
  match json_Marshal_Alert alert with
  | inr err =>
      (Some (With (errors_Wrap err "Fail to marshal alert") "alert" (VAlert alert)), w)
  | inl raw =>
      let '(pk, sk, w) := toAlertCacheKey reportID w in
      let cache :=
        mkAlertCache (mkRecordBase pk sk (Unix (Add (UTC now) (ttl x))) 0) raw in
      let '(r, err) := PutAlertCache (repo w) cache in
      (err, setRepo w r)
  end.

Fixpoint unmarshalAlerts (caches : list AlertCache) (alerts : list Alert)
    : list Alert * option error :=
  match caches with
  | [] => (alerts, None)
  | cache :: rest =>
      match json_Unmarshal_Alert (AlertData cache) with
      | inr err =>
          ([], Some (With (errors_Wrap err "Fail to unmarshal alert")
                       "data" (VString (AlertData cache))))
      | inl alert => unmarshalAlerts rest (alerts ++ [alert])
      end
  end.

Definition FetchAlertCache (x : RepositoryService) (reportID : ReportID)
    (w : World) : list Alert * option error * World :=
  let '(pk, _, w) := toAlertCacheKey reportID w in
  match GetAlertCaches (repo w) pk with
  | inr err =>
      ([], Some (With (errors_Wrap err "GetAlertCaches") "reportID" (VString reportID)), w)
  | inl caches => (unmarshalAlerts caches [], w)
  end.

Definition toInspectReportKeys (reportID : ReportID)
    (inspect : option InspectReport) (w : World) : string * string * World :=
  let pk := "content/" +:+ reportID in
  match inspect with
  | Some inspect =>
      let '(u, w) := uuid_New_String w in
      (pk, Hash (ir_Attribute inspect) +:+ "/" +:+ u, w)
  | None => (pk, "", w)
  end.

Definition SaveInspectReport (x : RepositoryService) (section : InspectReport)
    (now : Time) (w : World) : option error * World :=
  match json_Marshal_InspectReport section with
  | inr err =>
      (Some (With (errors_Wrap err "Fail to marshal ReportSection")
               "section" (VInspectReport section)), w)
  | inl raw =>
      let '(pk, sk, w) := toInspectReportKeys (ir_ReportID section) (Some section) w in
      let record :=
        mkInspectorReportRecord
          (mkRecordBase pk sk (Unix (Add (UTC now) (ttl x))) 0) raw in
      let '(r, err) := PutInspectorReport (repo w) record in
      match err with
      | Some err => (Some (errors_Wrap err "Fail to put report record"), setRepo w r)
      | None => (None, setRepo w r)
      end
  end.

Fixpoint unmarshalReports (records : list InspectorReportRecord)
    (reports : list InspectReport) : list InspectReport + error :=
  match records with
  | [] => inl reports
  | record :: rest =>
      match json_Unmarshal_InspectReport (Data record) with
      | inr err =>
          inr (With (With (errors_Wrap err "Fail to unmarshal report content")
                       "record" (VRecord record))
                 "data" (VString (Data record)))
      | inl section => unmarshalReports rest (reports ++ [section])
      end
  end.

Definition FetchInspectReport (M : MapRange) (x : RepositoryService)
    (reportID : ReportID) (w : World) : list ReportSection * option error * World :=
  let '(pk, _, w) := toInspectReportKeys reportID None w in
  match GetInspectorReports (repo w) pk with
  | inr err => ([], Some err, w)
  | inl records =>
      match unmarshalReports records [] with
      | inr err => ([], Some err, w)
      | inl reports =>
          match remapSection M reports with
          | (_, Some err) =>
              ([], Some (errors_Wrap err "Failed to remap InspectReport"), w)
          | (sections, None) => (sections, None, w)
          end
      end
  end.

Definition toAttributeCacheKey (reportID : ReportID) : string :=
  "attribute/" +:+ reportID.

Definition toReportKey (reportID : ReportID) : string :=
  "report/" +:+ reportID.

Definition newAttributeCache (x : RepositoryService) (reportID : ReportID)
    (attr : Attribute) (now : Time) : AttributeCache :=
  let ts :=
    match attr_Timestamp attr with
    | Some t => t
    | None => now
    end in
  mkAttributeCache
    (mkRecordBase (toAttributeCacheKey reportID) (Hash attr)
       (Unix (Add now (ttl x))) 0)
    ts (attr_Key attr) (attr_Type attr) (attr_Value attr) (attr_Context attr).

Definition PutAttributeCache (x : RepositoryService) (reportID : ReportID)
    (attr : Attribute) (now : Time) (w : World) : bool * option error * World :=
  let cache := newAttributeCache x reportID attr now in
  let '(r, err) := repo_PutAttributeCache (repo w) cache now in
  let w := setRepo w r in
  match err with
  | Some err =>
      if IsConditionalCheckErr err then (false, None, w)
      else
        (false,
         Some (With (With (errors_Wrap err "Fail to put attr cache")
                       "reportID" (VString reportID))
                 "attr" (VAttribute attr)),
         w)
  | None => (true, None, w)
  end.

Definition attributeOfCache (cache : AttributeCache) : Attribute :=
  mkAttribute (AttrType cache) (AttrKey cache) (AttrValue cache)
    (AttrContext cache) (Some (atc_Timestamp cache)).

Definition FetchAttributeCache (x : RepositoryService) (reportID : ReportID)
    (w : World) : list Attribute * option error :=
  let pk := toAttributeCacheKey reportID in
  match GetAttributeCaches (repo w) pk with
  | inr err =>
      ([], Some (With (errors_Wrap err "Fail to retrieve attributeCache")
                   "reportID" (VString reportID)))
  | inl caches => (attributeOfCache <$> caches, None)
  end.

Definition PutReport (x : RepositoryService) (report : Report) (w : World)
    : option error * World :=
  let pk := toReportKey (ID report) in
  let '(r, err) := repo_PutReport (repo w) pk report in
  (err, setRepo w r).

Definition GetReport (x : RepositoryService) (reportID : ReportID) (w : World)
    : option Report * option error :=
  let pk := toReportKey reportID in
  match repo_GetReport (repo w) pk with
  | inr err => (None, Some err)
  | inl report => (Some report, None)
  end.

End Service.

(** ** The store behind the interface *)

(** Modelled from the spec: the implementations of [adaptor.Repository] are
    not among the sources. The store is one table of records under a
    (partition key, sort key) pair, with a conditional put, a get by key and
    a scan by partition key. *)
Inductive Item :=
| ItAlertEntry (e : AlertEntry)
| ItAlertCache (c : AlertCache)
| ItInspectorReport (r : InspectorReportRecord)
| ItAttributeCache (c : AttributeCache)
| ItReport (r : Report).

Definition itemExpiresAt (it : Item) : option Z :=
  match it with
  | ItAlertEntry e => Some (ExpiresAt (ae_Base e))
  | ItAlertCache c => Some (ExpiresAt (ac_Base c))
  | ItInspectorReport r => Some (ExpiresAt (irr_Base r))
  | ItAttributeCache c => Some (ExpiresAt (atc_Base c))
  | ItReport _ => None
  end.

(** Modelled from the spec: a record is expired at [ts] when [ts] is past
    its expiry timestamp; the store is free to reclaim it from then on. *)
Definition expired (it : Item) (ts : Time) : bool :=
  match itemExpiresAt it with
  | Some e => e <? Unix ts
  | None => false
  end.

(** Modelled from the spec: the state of the store. [outage] is a fault of
    the second kind of the error taxonomy (a transient store fault): while it
    is set, every call fails with it. *)
Record Store := mkStore {
  items : gmap (string * string) Item;
  outage : option error
}.

Definition ErrConditionalCheckFailed : error :=
  Foreign "ConditionalCheckFailedException".

Definition put (s : Store) (key : string * string) (it : Item) : Store * option error :=
  match outage s with
  | Some e => (s, Some e)
  | None => (mkStore (<[key := it]> (items s)) (outage s), None)
  end.

(** Modelled from the spec: the conditional create. It fails with the
    conditional-check failure when a record that has not expired at [ts] is
    under the key, and leaves the store as it was. *)
Definition tryCreate (s : Store) (key : string * string) (it : Item) (ts : Time)
    : Store * option error :=
  match outage s with
  | Some e => (s, Some e)
  | None =>
      match items s !! key with
      | Some old =>
          if expired old ts then put s key it
          else (s, Some ErrConditionalCheckFailed)
      | None => put s key it
      end
  end.

Definition get (s : Store) (key : string * string) : Item + error :=
  match outage s with
  | Some e => inr e
  | None =>
      match items s !! key with
      | Some it => inl it
      | None => inr (Foreign "NotFound")
      end
  end.

(** Modelled from the spec: a scan returns the records of one kind under a
    partition key. *)
Definition scan {A : Type} (s : Store) (pk : string) (kind : Item -> option A)
    : list A + error :=
  match outage s with
  | Some e => inr e
  | None =>
      inl (omap (fun kv => if decide (fst (fst kv) = pk) then kind (snd kv) else None)
             (map_to_list (items s)))
  end.

Definition asAlertEntry (it : Item) : option AlertEntry :=
  match it with ItAlertEntry e => Some e | _ => None end.

Definition asAlertCache (it : Item) : option AlertCache :=
  match it with ItAlertCache c => Some c | _ => None end.

Definition asInspectorReport (it : Item) : option InspectorReportRecord :=
  match it with ItInspectorReport r => Some r | _ => None end.

Definition asAttributeCache (it : Item) : option AttributeCache :=
  match it with ItAttributeCache c => Some c | _ => None end.

Definition asReport (it : Item) : option Report :=
  match it with ItReport r => Some r | _ => None end.

Definition getAs {A : Type} (s : Store) (key : string * string)
    (kind : Item -> option A) : A + error :=
  match get s key with
  | inr e => inr e
  | inl it =>
      match kind it with
      | Some a => inl a
      | None => inr (Foreign "NotFound")
      end
  end.

Definition isConditionalCheckErr (e : error) : bool :=
  match e with
  | Foreign code => bool_decide (code = "ConditionalCheckFailedException")
  | _ => false
  end.

(** Modelled from the spec: the store as an [adaptor.Repository]. *)
#[export] Instance StoreRepository : Repository Store := {
  PutAlertEntry s e ts :=
    tryCreate s (PKey (ae_Base e), SKey (ae_Base e)) (ItAlertEntry e) ts;
  GetAlertEntry s pk sk := getAs s (pk, sk) asAlertEntry;
  PutAlertCache s c := put s (PKey (ac_Base c), SKey (ac_Base c)) (ItAlertCache c);
  GetAlertCaches s pk := scan s pk asAlertCache;
  PutInspectorReport s r :=
    put s (PKey (irr_Base r), SKey (irr_Base r)) (ItInspectorReport r);
  GetInspectorReports s pk := scan s pk asInspectorReport;
  repo_PutAttributeCache s c ts :=
    tryCreate s (PKey (atc_Base c), SKey (atc_Base c)) (ItAttributeCache c) ts;
  GetAttributeCaches s pk := scan s pk asAttributeCache;
  repo_PutReport s pk r := put s (pk, "") (ItReport r);
  repo_GetReport s pk := getAs s (pk, "") asReport;
  IsConditionalCheckErr := isConditionalCheckErr
}.

(** ** Vocabulary of the properties *)

(** The declared kind of a finding agrees with the type of its payload. A
    kind other than the three declared ones constrains nothing. *)
Definition consistent (ir : InspectReport) : bool :=
  match ir_Type ir, ir_Content ir with
  | ContentHost, PtrReportHost _ => true
  | ContentUser, PtrReportUser _ => true
  | ContentBinary, PtrReportBinary _ => true
  | ContentOther _, _ => true
  | _, _ => false
  end.

(** The attribute hash a section stands for: the one of its [OriginAttr]. *)
Definition sectionHash (s : ReportSection) : option string :=
  Hash <$> OriginAttr s.

(** The findings of one attribute hash, in the order of the list. *)
Definition group (h : string) (irs : list InspectReport) : list InspectReport :=
  filter (fun ir => Hash (ir_Attribute ir) = h) irs.

Definition hostOf (ir : InspectReport) : option ReportHost :=
  match ir_Type ir, ir_Content ir with
  | ContentHost, PtrReportHost c => Some c
  | _, _ => None
  end.

Definition userOf (ir : InspectReport) : option ReportUser :=
  match ir_Type ir, ir_Content ir with
  | ContentUser, PtrReportUser c => Some c
  | _, _ => None
  end.

Definition binaryOf (ir : InspectReport) : option ReportBinary :=
  match ir_Type ir, ir_Content ir with
  | ContentBinary, PtrReportBinary c => Some c
  | _, _ => None
  end.

(** The section of hash [h] as the spec words it: none when no finding has
    the hash; otherwise the first finding of the group gives [OriginAttr] and
    every finding of the group adds its payload to the collection of its
    kind. *)
Definition assembled (h : string) (irs : list InspectReport) : option ReportSection :=
  match group h irs with
  | [] => None
  | first :: _ =>
      Some (mkReportSection (Some (ir_Attribute first))
              (omap hostOf (group h irs))
              (omap userOf (group h irs))
              (omap binaryOf (group h irs)))
  end.

(** The key of the AlertEntry of an alert, and of the AttributeCache of an
    attribute within a report. *)
Definition alertEntryKey (alert : Alert) : string * string :=
  ("alertmap/" +:+ AlertID alert, "Fixed").

Definition attributeCacheKey (reportID : ReportID) (attr : Attribute)
    : string * string :=
  (toAttributeCacheKey reportID, Hash attr).

(** A record is under the key and has not expired at [ts]. *)
Definition live (s : Store) (key : string * string) (ts : Time) : bool :=
  match items s !! key with
  | Some it => negb (expired it ts)
  | None => false
  end.

(** Calls to [TakeReport] for one alert, one after the other on the same
    store, at the given times. *)
Fixpoint TakeReportEach `{Repository R} (x : RepositoryService) (alert : Alert)
    (nows : list Time) (w : World) : list (option Report * option error) * World :=
  match nows with
  | [] => ([], w)
  | now :: rest =>
      let '(report, err, w) := TakeReport x alert now w in
      let '(results, w) := TakeReportEach x alert rest w in
      ((report, err) :: results, w)
  end.

(** Calls to [PutAttributeCache] for one report and attribute, one after the
    other on the same store, at the given times. *)
Fixpoint PutAttributeCacheEach `{Repository R} (x : RepositoryService)
    (reportID : ReportID) (attr : Attribute) (nows : list Time) (w : World)
    : list (bool * option error) * World :=
  match nows with
  | [] => ([], w)
  | now :: rest =>
      let '(sendable, err, w) := PutAttributeCache x reportID attr now w in
      let '(results, w) := PutAttributeCacheEach x reportID attr rest w in
      ((sendable, err) :: results, w)
  end.

(** An iteration order for the final loop: the order of the keys. *)
Definition keyOrder : MapRange :=
  mkMapRange map_to_list (fun m => reflexivity (map_to_list m)).

End Deepalert.

(** ** The scenario of the testable properties

    Alert [{detector:"edr", rule:"malware", key:"host-1"}], attribute
    [{type:"ipaddr", key:"src_ip", value:"10.0.0.1"}], host findings, on an
    empty store. The payloads are the names they carry; the fingerprints are
    stand-ins that keep the fields apart. *)

Module Scenario.

Record Alert := mkAlert {
  Detector : string;
  RuleName : string;
  AlertKey : string
}.

Definition AlertID (a : Alert) : string :=
  Detector a +:+ "/" +:+ RuleName a +:+ "/" +:+ AlertKey a.

Definition Hash (a : Attribute) : string :=
  attr_Type a +:+ ":" +:+ attr_Key a +:+ "=" +:+ attr_Value a.

Definition Finding := @InspectReport string string string.
Definition Section_ := @ReportSection string string string.
Definition Store := @Store string string string Alert.
Definition World := @World Store.
Definition Err := @error string string string Alert.

Definition uuids (n : nat) : string := "report-" +:+ pretty n.

Definition alert : Alert := mkAlert "edr" "malware" "host-1".

Definition srcIP : Attribute := mkAttribute "ipaddr" "src_ip" "10.0.0.1" [] None.

Definition userName : Attribute := mkAttribute "username" "login" "alice" [] None.

Definition service : RepositoryService := NewRepositoryService 3600.

(** 2020-09-13 12:26:40.25 UTC, and instants after it. *)
Definition t0 : Time := mkTime 1600000000250000000.
Definition after (d : Z) : Time := Add t0 (seconds d).

Definition emptyWorld : World := mkWorld (mkStore ∅ None) uuids 0.

Definition throttled : Err := Foreign "ProvisionedThroughputExceededException".

Definition faultyWorld : World := mkWorld (mkStore ∅ (Some throttled)) uuids 0.

Definition F1 : Finding := mkInspectReport "r" srcIP ContentHost (PtrReportHost "host-1").
Definition F2 : Finding := mkInspectReport "r" srcIP ContentUser (PtrReportUser "alice").
Definition F3 : Finding := mkInspectReport "r" userName ContentHost (PtrReportHost "host-2").

End Scenario.

(** ** lambda/feedbackAttribute *)

Section FeedbackAttribute.

Context {ReportHost ReportUser ReportBinary Alert : Type}.
Variable Hash : Attribute -> string.

Local Abbreviation error := (@error ReportHost ReportUser ReportBinary Alert).

(** The fields of [deepalert.ReportAttribute] and [deepalert.Task] the
    handler touches. [Attributes] is a slice of pointers. *)
Record ReportAttribute := mkReportAttribute {
  ra_ReportID : ReportID;
  ra_Attributes : list (option Attribute)
}.

Record Task := mkTask {
  task_ReportID : ReportID;
  task_Attribute : option Attribute
}.

(** The service behind [args.SNSService()]. *)
Class SNSService (S : Type) := {
  Publish : S -> string -> Task -> S * option error
}.

Context {R : Type} `{!@Repository ReportHost ReportUser ReportBinary Alert R}.
Context {S : Type} `{!SNSService S}.

Variable json_Unmarshal_ReportAttribute : string -> ReportAttribute + error.

(** What [handler.Arguments] hands to the handler. *)
Record Arguments := mkArguments {
  Repository_ : RepositoryService + error;
  DecapSQSEvent : list string + error;
  TaskTopic : string
}.

Record Env := mkEnv {
  world : @World R;
  sns : S
}.

(** How a run of the handler ends: it returns nil, it returns an error, or
    it panics on a nil [*Attribute]. The handler's response is nil in every
    return. *)
Inductive exit :=
| Done
| Failed (e : error)
| NilDereference.

(** [for _, attr := range reportedAttr.Attributes]. *)
Fixpoint feedAttributes (repo : RepositoryService) (topic : string)
    (reportID : ReportID) (now : Time) (attrs : list (option Attribute))
    (env : Env) : exit * Env :=
  match attrs with
  | [] => (Done, env)
  | None :: _ => (NilDereference, env)
  | Some attr :: rest =>
      let '(sendable, err, w) :=
        PutAttributeCache Hash repo reportID attr now (world env) in
      let env := mkEnv w (sns env) in
      match err with
      | Some err =>
          (Failed (With (errors_Wrap err "Fail to manage attribute cache")
                     "attr" (VAttribute attr)), env)
      | None =>
          if sendable then
            let task := mkTask reportID (Some attr) in
            let '(s, err) := Publish (sns env) topic task in
            let env := mkEnv (world env) s in
            match err with
            | Some err => (Failed err, env)
            | None => feedAttributes repo topic reportID now rest env
            end
          else feedAttributes repo topic reportID now rest env
      end
  end.

(** [for _, msg := range sqsMessages]. *)
Fixpoint feedMessages (repo : RepositoryService) (topic : string) (now : Time)
    (sqsMessages : list string) (env : Env) : exit * Env :=
  match sqsMessages with
  | [] => (Done, env)
  | msg :: rest =>
      match json_Unmarshal_ReportAttribute msg with
      | inr err =>
          (Failed (With (errors_Wrap err "Unmarshal ReportAttribute")
                     "msg" (VString msg)), env)
      | inl reportedAttr =>
          match feedAttributes repo topic (ra_ReportID reportedAttr) now
                  (ra_Attributes reportedAttr) env with
          | (Done, env) => feedMessages repo topic now rest env
          | stopped => stopped
          end
      end
  end.

(** [handleRequest]; [now] is what [time.Now()] returns. What the handler
    writes to the log is left out. *)
Definition handleRequest (args : Arguments) (now : Time) (env : Env) : exit * Env :=
  match Repository_ args with
  | inr err => (Failed err, env)
  | inl repo =>
      match DecapSQSEvent args with
      | inr err => (Failed err, env)
      | inl sqsMessages => feedMessages repo (TaskTopic args) now sqsMessages env
      end
  end.

(** Modelled from the spec: the publish channel, [Publish(topic, payload)],
    which records what it is given, and fails on every call while [broken]
    is set. *)
Record Channel := mkChannel {
  published : list (string * Task);
  broken : option error
}.

#[export] Instance ChannelSNS : SNSService Channel := {
  Publish c topic task :=
    match broken c with
    | Some e => (c, Some e)
    | None => (mkChannel (published c ++ [(topic, task)]) (broken c), None)
    end
}.

End FeedbackAttribute.

(** Vocabulary for the handler on the store and the channel. *)

Section FeedbackOnStore.

Context {ReportHost ReportUser ReportBinary Alert : Type}.
Variable Hash : Attribute -> string.

Local Abbreviation Store := (@Store ReportHost ReportUser ReportBinary Alert).
Local Abbreviation Channel := (@Channel ReportHost ReportUser ReportBinary Alert).
Local Abbreviation StoreEnv := (@Env Store Channel).

(** The pair a task was dispatched for: the report, and the hash of the
    attribute. *)
Definition taskPair (pt : string * Task) : ReportID * option string :=
  (task_ReportID (snd pt), Hash <$> task_Attribute (snd pt)).

(** A task published in this run, at [now], on [topic]: the AttributeCache
    of its pair was not live before the run and is live now. *)
Definition dispatchedInRun (topic : string) (now : Time) (before after : Store)
    (pt : string * Task) : Prop :=
  fst pt = topic ∧
  ∃ attr, task_Attribute (snd pt) = Some attr ∧
          live before (attributeCacheKey Hash (task_ReportID (snd pt)) attr) now = false ∧
          live after (attributeCacheKey Hash (task_ReportID (snd pt)) attr) now = true.

(** What holds of a run of the handler at [now], from [env0] to [env],
    with neither the store nor the channel failing: the channel got the
    tasks [new] on top of what it had, each dispatched in this run, no two
    for the same pair; and what was live in the store still is. *)
Definition runInvariant (topic : string) (now : Time) (env0 env : StoreEnv)
    (new : list (string * Task)) : Prop :=
  outage (repo (world env)) = None ∧
  broken (sns env) = None ∧
  published (sns env) = published (sns env0) ++ new ∧
  Forall (dispatchedInRun topic now (repo (world env0)) (repo (world env))) new ∧
  NoDup (taskPair <$> new) ∧
  (∀ key, live (repo (world env0)) key now = true →
          live (repo (world env)) key now = true).

(** Every pair whose AttributeCache is live now and was not before the run
    has a task among [new]. *)
Definition everyNewPairPublished (now : Time) (env0 env : StoreEnv)
    (new : list (string * Task)) : Prop :=
  ∀ reportID attr,
    live (repo (world env)) (attributeCacheKey Hash reportID attr) now = true →
    live (repo (world env0)) (attributeCacheKey Hash reportID attr) now = false →
    ∃ pt, pt ∈ new ∧ taskPair pt = (reportID, Some (Hash attr)).

End FeedbackOnStore.

(** ** IsReportStreamEvent *)

(** A function either returns a value or panics. *)
Inductive outcome (A : Type) :=
| Returns (a : A)
| Panics (reason : string).

Arguments Returns {A} a.
Arguments Panics {A} reason.

(** [events.DynamoDBAttributeValue]: a string, or a value of another data
    type, on which the accessor [String()] panics. *)
Inductive DynamoDBAttributeValue :=
| StringValue (s : string)
| NonStringValue.

Definition AttributeValue_String (av : DynamoDBAttributeValue) : outcome string :=
  match av with
  | StringValue s => Returns s
  | NonStringValue => Panics "accessor called for field of wrong type"
  end.

(** [strings.HasPrefix]. *)
Fixpoint HasPrefix (s pre : string) : bool :=
  match pre, s with
  | EmptyString, _ => true
  | String a pre', String b s' => if decide (a = b) then HasPrefix s' pre' else false
  | String _ _, EmptyString => false
  end.

(** [IsReportStreamEvent], on the keys of the change of the record; the
    name of the partition key attribute, [models.DynamoPKeyName], is a
    parameter. *)
Definition IsReportStreamEvent (DynamoPKeyName : string)
    (keys : gmap string DynamoDBAttributeValue) : outcome bool :=
  match keys !! DynamoPKeyName with
  | None => Returns false
  | Some pk =>
      match AttributeValue_String pk with
      | Returns s => Returns (HasPrefix s "report/")
      | Panics reason => Panics reason
      end
  end.

(** ** package api: the request context *)

Section Api.

(** [handler.Arguments] is opaque to the API helpers. *)
Context {HandlerArguments : Type}.

(** A value kept in the keys of a [gin.Context]: a [*handler.Arguments], a
    string, or a value of another type. *)
Inductive ginValue :=
| PtrArguments (args : option HandlerArguments)
| GinString (s : string)
| GinOther.

Definition contextArgumentKey : string := "handler.arguments".
Definition contextRequestID : string := "request.id".

(** [c.Get] is a lookup in the keys of the context, [c.Set] an insert. *)
Definition getArguments (c : gmap string ginValue) : outcome (option HandlerArguments) :=
  match c !! contextArgumentKey with
  | None => Panics "Config is not set in API"
  | Some ptr =>
      match ptr with
      | PtrArguments args => Returns args
      | _ => Panics "Config data can not be casted"
      end
  end.

Definition getRequestID (c : gmap string ginValue) : outcome string :=
  match c !! contextRequestID with
  | None => Panics "RequestID is not set in API"
  | Some ptr =>
      match ptr with
      | GinString reqID => Returns reqID
      | _ => Panics "RequestID can not be casted"
      end
  end.

Definition wrapErr (msg : string) : gmap string string := {[ "error" := msg ]}.

(** The middleware [SetupRoute] installs, up to [c.Next()]: it draws the
    request ID and binds it and the arguments in the context. The log entry
    it writes is left out. *)
Definition bindRequest (args : option HandlerArguments) (reqID : string)
    (c : gmap string ginValue) : gmap string ginValue :=
  <[contextArgumentKey := PtrArguments args]>
    (<[contextRequestID := GinString reqID]> c).

End Api.

(** ** package mock: SFnClient *)

Section Mock.

(** [sfn.StartExecutionInput] and the [error] interface are opaque to the
    mock. *)
Context {StartExecutionInput GoError : Type}.

Record SFnClient := mkSFnClient {
  region : string;
  Input : list (option StartExecutionInput)
}.

(** [sfn.StartExecutionOutput]: both fields are nil in the zero value. *)
Record StartExecutionOutput := mkStartExecutionOutput {
  ExecutionArn : option string;
  StartDate : option Time
}.

Definition NewSFnClient (region : string) : option SFnClient * option GoError :=
  (Some (mkSFnClient region []), None).

Definition StartExecution (x : SFnClient) (input : option StartExecutionInput)
    : SFnClient * (option StartExecutionOutput * option GoError) :=
  (mkSFnClient (region x) (Input x ++ [input]),
   (Some (mkStartExecutionOutput None None), None)).

(** Calls to [StartExecution], one after the other on one client. *)
Fixpoint StartExecutionEach (x : SFnClient) (inputs : list (option StartExecutionInput))
    : SFnClient * list (option StartExecutionOutput * option GoError) :=
  match inputs with
  | [] => (x, [])
  | input :: rest =>
      let '(x, out) := StartExecution x input in
      let '(x, outs) := StartExecutionEach x rest in
      (x, out :: outs)
  end.

End Mock.

(** ** A run of the lambda on the scenario

    Stand-ins for the codecs, which give back the values of the scenario
    and reject everything else, and the events of two runs. *)

Module Run.

Definition marshalAlert (a : Scenario.Alert) : string + Scenario.Err :=
  inl (Scenario.AlertID a).

Definition unmarshalAlert (raw : string) : Scenario.Alert + Scenario.Err :=
  if decide (raw = "edr/malware/host-1") then inl Scenario.alert
  else inr (Foreign "invalid character").

Definition marshalFinding (f : Scenario.Finding) : string + Scenario.Err :=
  inl (ir_ReportID f +:+ "|" +:+ Scenario.Hash (ir_Attribute f)).

Definition unmarshalFinding (raw : string) : Scenario.Finding + Scenario.Err :=
  if decide (raw = "r|ipaddr:src_ip=10.0.0.1") then inl Scenario.F1
  else inr (Foreign "invalid character").

Definition ReportAttribute := @ReportAttribute.

(** The first message reports the source address twice and the user name
    once for report-0; the second reports the source address again. *)
Definition unmarshalReportAttribute (raw : string) : ReportAttribute + Scenario.Err :=
  if decide (raw = "first") then
    inl (mkReportAttribute "report-0"
           [Some Scenario.srcIP; Some Scenario.userName; Some Scenario.srcIP])
  else if decide (raw = "second") then
    inl (mkReportAttribute "report-0" [Some Scenario.srcIP])
  else inr (Foreign "unexpected end of JSON input").

Definition Args := @Arguments string string string Scenario.Alert.

Definition args (msgs : list string) : Args :=
  mkArguments (inl Scenario.service) (inl msgs) "task-topic".

Definition Channel := @Channel string string string Scenario.Alert.
Definition Env := @Env Scenario.Store Channel.

Definition env : Env := mkEnv Scenario.emptyWorld (mkChannel [] None).

Definition envBrokenChannel : Env :=
  mkEnv Scenario.emptyWorld (mkChannel [] (Some Scenario.throttled)).

(** A store that holds one alert cache the codec rejects. *)
Definition corruptCache : @AlertCache :=
  mkAlertCache (mkRecordBase "alert/report-0" "cache/x" 0 0) "{".

Definition corruptWorld : Scenario.World :=
  mkWorld (mkStore {[ ("alert/report-0", "cache/x") := ItAlertCache corruptCache ]} None)
    Scenario.uuids 0.

Definition report : @Report string string string Scenario.Alert :=
  mkReport "report-0" StatusNew Scenario.t0 [Scenario.alert] [].

End Run.

Section Properties.

Context {ReportHost ReportUser ReportBinary Alert : Type}.
Variable AlertID : Alert -> string.
Variable Hash : Attribute -> string.

Local Abbreviation InspectReport := (@InspectReport ReportHost ReportUser ReportBinary).
Local Abbreviation ReportSection := (@ReportSection ReportHost ReportUser ReportBinary).
Local Abbreviation error := (@error ReportHost ReportUser ReportBinary Alert).
Local Abbreviation MapRange := (@MapRange ReportHost ReportUser ReportBinary).
Local Abbreviation Store := (@Store ReportHost ReportUser ReportBinary Alert).
Local Abbreviation Item := (@Item ReportHost ReportUser ReportBinary Alert).
Local Abbreviation StoreWorld := (@World Store).

(** *** remapSection *)

Lemma remapLoop_app (irs1 irs2 : list InspectReport) (m : gmap string ReportSection) :
  remapLoop (Alert:=Alert) Hash (irs1 ++ irs2) m =
  match remapLoop (Alert:=Alert) Hash irs1 m with
  | inl m' => remapLoop Hash irs2 m'
  | inr e => inr e
  end.
Proof.
  revert m. induction irs1 as [|ir irs1 IH]; intros m; simpl; [done|].
  destruct (remapStep Hash m ir); [apply IH | done].
Qed.

Lemma group_app h (irs1 irs2 : list InspectReport) :
  group Hash h (irs1 ++ irs2) = group Hash h irs1 ++ group Hash h irs2.
Proof. apply filter_app. Qed.

Lemma group_singleton h (ir : InspectReport) :
  group Hash h [ir] = if decide (Hash (ir_Attribute ir) = h) then [ir] else [].
Proof. unfold group. rewrite filter_cons, filter_nil. by case_decide. Qed.

Lemma assembled_snoc_ne h (irs : list InspectReport) ir :
  Hash (ir_Attribute ir) ≠ h →
  assembled Hash h (irs ++ [ir]) = assembled Hash h irs.
Proof.
  intros Hne. unfold assembled. rewrite group_app, group_singleton.
  rewrite decide_False by done. by rewrite app_nil_r.
Qed.

Lemma assembled_snoc_eq (irs : list InspectReport) ir :
  assembled Hash (Hash (ir_Attribute ir)) (irs ++ [ir]) =
  Some match assembled Hash (Hash (ir_Attribute ir)) irs with
       | None =>
           mkReportSection (Some (ir_Attribute ir))
             (omap hostOf [ir]) (omap userOf [ir]) (omap binaryOf [ir])
       | Some s =>
           mkReportSection (OriginAttr s)
             (Hosts s ++ omap hostOf [ir]) (Users s ++ omap userOf [ir])
             (Binaries s ++ omap binaryOf [ir])
       end.
Proof.
  unfold assembled. rewrite group_app, group_singleton.
  rewrite decide_True by done.
  destruct (group Hash (Hash (ir_Attribute ir)) irs) as [|f g]; [done|].
  by rewrite !omap_app.
Qed.

Lemma remapStep_assembled (irs : list InspectReport) ir (m : gmap string ReportSection) :
  consistent ir = true →
  (∀ h, m !! h = assembled Hash h irs) →
  ∃ m', remapStep (Alert:=Alert) Hash m ir = inl m' ∧
        ∀ h, m' !! h = assembled Hash h (irs ++ [ir]).
Proof.
  intros Hc Hm. unfold remapStep.
  destruct ir as [rid a t c].
  pose proof (assembled_snoc_eq irs (mkInspectReport rid a t c)) as Heq.
  simpl in *.
  rewrite <- (Hm (Hash a)) in Heq.
  assert (Hother : ∀ (m' : gmap string ReportSection) h,
             (∀ k, k ≠ Hash a → m' !! k = m !! k) →
             h ≠ Hash a →
             m' !! h = assembled Hash h (irs ++ [mkInspectReport rid a t c])).
  { intros m' h Hk Hne. rewrite assembled_snoc_ne by done.
    rewrite Hk by done. apply Hm. }
  unfold consistent, hostOf, userOf, binaryOf in *.
  destruct (m !! Hash a) as [s|] eqn:Hlk;
    destruct t, c; try discriminate Hc;
    (eexists; split; [reflexivity|]);
    intros h; destruct (decide (h = Hash a)) as [->|Hne];
    try (apply Hother; [intros k Hk; by rewrite ?lookup_insert_ne by done | done]);
    rewrite ?lookup_insert_eq, Heq; cbn; rewrite ?app_nil_r; try done;
    try (rewrite Hlk; by destruct s).
Qed.

Lemma remapLoop_assembled (irs : list InspectReport) :
  Forall (fun ir => consistent ir = true) irs →
  ∃ m, remapLoop (Alert:=Alert) Hash irs ∅ = inl m ∧
       ∀ h, m !! h = assembled Hash h irs.
Proof.
  induction irs as [|ir irs IH] using rev_ind; intros Hall.
  - exists ∅. split; [done|]. intros h. by rewrite lookup_empty.
  - apply Forall_app in Hall as [Hirs Hir]. apply Forall_inv in Hir.
    destruct (IH Hirs) as (m & Hloop & Hm).
    destruct (remapStep_assembled irs ir m Hir Hm) as (m' & Hstep & Hm').
    exists m'. split; [|done].
    rewrite remapLoop_app, Hloop. simpl. by rewrite Hstep.
Qed.

Lemma assembled_sectionHash h (irs : list InspectReport) s :
  assembled Hash h irs = Some s → sectionHash Hash s = Some h.
Proof.
  unfold assembled, sectionHash.
  destruct (group Hash h irs) as [|f g] eqn:Hg; [done|].
  intros [= <-]. simpl. f_equal.
  assert (Hf : f ∈ group Hash h irs) by (rewrite Hg; left).
  by apply list_elem_of_filter in Hf as [? _].
Qed.

Lemma assembled_Some h (irs : list InspectReport) s :
  assembled Hash h irs = Some s →
  s = mkReportSection (ir_Attribute <$> head (group Hash h irs))
        (omap hostOf (group Hash h irs)) (omap userOf (group Hash h irs))
        (omap binaryOf (group Hash h irs)).
Proof.
  unfold assembled. destruct (group Hash h irs); [done|]. by intros [= <-].
Qed.

Lemma assembled_hosts h (irs : list InspectReport) s ir c :
  assembled Hash h irs = Some s → ir ∈ irs → Hash (ir_Attribute ir) = h →
  hostOf ir = Some c → c ∈ Hosts s.
Proof.
  intros Hs Hin Hh Hc. rewrite (assembled_Some _ _ _ Hs). cbn [Hosts].
  apply list_elem_of_omap. exists ir. split; [|done].
  by apply list_elem_of_filter.
Qed.

Lemma assembled_users h (irs : list InspectReport) s ir c :
  assembled Hash h irs = Some s → ir ∈ irs → Hash (ir_Attribute ir) = h →
  userOf ir = Some c → c ∈ Users s.
Proof.
  intros Hs Hin Hh Hc. rewrite (assembled_Some _ _ _ Hs). cbn [Users].
  apply list_elem_of_omap. exists ir. split; [|done].
  by apply list_elem_of_filter.
Qed.

Lemma assembled_is_Some h (irs : list InspectReport) ir :
  ir ∈ irs → Hash (ir_Attribute ir) = h → is_Some (assembled Hash h irs).
Proof.
  intros Hin Hh. unfold assembled.
  destruct (group Hash h irs) as [|f g] eqn:Hg; [|by eexists].
  assert (Hir : ir ∈ group Hash h irs) by by apply list_elem_of_filter.
  rewrite Hg in Hir. by apply elem_of_nil in Hir.
Qed.

Lemma filter_none {A} (P : A → Prop) `{∀ x, Decision (P x)} (l : list A) :
  (∀ x, x ∈ l → ¬ P x) → filter P l = [].
Proof.
  induction l as [|x l IH]; intros Hl; [done|].
  rewrite filter_cons_False by (apply Hl; left).
  apply IH. intros y Hy. apply Hl. by right.
Qed.

(** In the list of sections a map is flattened to, in whatever order, the
    sections that stand for a hash are the single value under that key. *)
Lemma sections_of_hash (m : gmap string ReportSection)
    (l : list (string * ReportSection)) h s :
  (∀ k s', m !! k = Some s' → sectionHash Hash s' = Some k) →
  l ≡ₚ map_to_list m → m !! h = Some s →
  filter (fun s' => sectionHash Hash s' = Some h) (snd <$> l) = [s].
Proof.
  intros Hkeys Hl Hs. apply Permutation_singleton_r.
  rewrite Hl, <- (map_to_list_delete m h s Hs).
  rewrite fmap_cons, filter_cons_True by (simpl; eauto).
  f_equiv. apply Permutation_nil_r, filter_none.
  intros s' Hin. apply list_elem_of_fmap in Hin as ([k s''] & -> & Hin).
  apply elem_of_map_to_list, lookup_delete_Some in Hin as [Hne Hk].
  simpl. rewrite (Hkeys _ _ Hk). congruence.
Qed.

(** The result of [remapSection] on findings whose kinds agree with their
    payloads: the sections the spec describes, one per attribute hash, in
    the order the final loop visits the map. *)
Lemma remapSection_assembled (R : MapRange) (irs : list InspectReport) :
  Forall (fun ir => consistent ir = true) irs →
  ∃ m : gmap string ReportSection,
    remapSection (Alert:=Alert) Hash R irs = (snd <$> range R m, None) ∧
    ∀ h, m !! h = assembled Hash h irs.
Proof.
  intros Hall. destruct (remapLoop_assembled irs Hall) as (m & Hloop & Hm).
  exists m. split; [|done]. unfold remapSection. by rewrite Hloop.
Qed.

(** C3. Section grouping: among findings whose kinds agree with their
    payloads, let F1 carry a host under attribute hash H, F2 a user under
    the same hash, and F3 have another hash H2. Section assembly succeeds;
    exactly one of the returned sections stands for H, it holds F1's host in
    Hosts and F2's user in Users; exactly one stands for H2, and it is made
    of the findings of H2 alone; the OriginAttr of each is the attribute of
    the first finding of its group. *)
Theorem remapSection_groups_by_hash (R : MapRange) (irs : list InspectReport)
    (F1 F2 F3 : InspectReport) (c1 : ReportHost) (u2 : ReportUser) (H H2 : string) :
  Forall (fun ir => consistent ir = true) irs →
  F1 ∈ irs → ir_Type F1 = ContentHost → ir_Content F1 = PtrReportHost c1 →
  Hash (ir_Attribute F1) = H →
  F2 ∈ irs → ir_Type F2 = ContentUser → ir_Content F2 = PtrReportUser u2 →
  Hash (ir_Attribute F2) = H →
  F3 ∈ irs → Hash (ir_Attribute F3) = H2 → H2 ≠ H →
  ∃ (secs : list ReportSection) (sH sH2 : ReportSection),
    remapSection (Alert:=Alert) Hash R irs = (secs, None) ∧
    filter (fun s => sectionHash Hash s = Some H) secs = [sH] ∧
    filter (fun s => sectionHash Hash s = Some H2) secs = [sH2] ∧
    c1 ∈ Hosts sH ∧ u2 ∈ Users sH ∧
    OriginAttr sH = ir_Attribute <$> head (group Hash H irs) ∧
    OriginAttr sH2 = ir_Attribute <$> head (group Hash H2 irs) ∧
    assembled Hash H irs = Some sH ∧
    assembled Hash H2 irs = Some sH2.
Proof.
  intros Hall Hin1 Ht1 Hc1 Hh1 Hin2 Ht2 Hc2 Hh2 Hin3 Hh3 Hne.
  destruct (remapSection_assembled R irs Hall) as (m & Hres & Hm).
  destruct (assembled_is_Some H irs F1 Hin1 Hh1) as [sH HsH].
  destruct (assembled_is_Some H2 irs F3 Hin3 Hh3) as [sH2 HsH2].
  assert (Hkeys : ∀ k s', m !! k = Some s' → sectionHash Hash s' = Some k).
  { intros k s'. rewrite Hm. apply assembled_sectionHash. }
  exists (snd <$> range R m), sH, sH2.
  split; [done|].
  split; [apply (sections_of_hash m); [done | apply range_perm | by rewrite Hm]|].
  split; [apply (sections_of_hash m); [done | apply range_perm | by rewrite Hm]|].
  split.
  { apply (assembled_hosts H irs sH F1); [done..|].
    unfold hostOf. by rewrite Ht1, Hc1. }
  split.
  { apply (assembled_users H irs sH F2); [done..|].
    unfold userOf. by rewrite Ht2, Hc2. }
  split; [by rewrite (assembled_Some _ _ _ HsH)|].
  split; [by rewrite (assembled_Some _ _ _ HsH2)|].
  done.
Qed.

Lemma remapStep_mismatch (m : gmap string ReportSection) (ir : InspectReport) :
  consistent ir = false → ∃ e, remapStep (Alert:=Alert) Hash m ir = inr e.
Proof.
  unfold consistent, remapStep. intros Hc.
  destruct (m !! Hash (ir_Attribute ir)), (ir_Type ir), (ir_Content ir);
    try discriminate Hc; by eexists.
Qed.

(** A finding whose kind and payload disagree fails the assembly, wherever
    it stands in the list, and no section is returned. *)
Lemma remapSection_mismatch_fails (R : MapRange) (irs : list InspectReport) :
  Exists (fun ir => consistent ir = false) irs →
  ∃ e, remapSection (Alert:=Alert) Hash R irs = ([], Some e).
Proof.
  intros Hex.
  assert (Hloop : ∀ m, ∃ e, remapLoop (Alert:=Alert) Hash irs m = inr e).
  { induction Hex as [ir irs Hir | ir irs Hex IH]; intros m; simpl.
    - destruct (remapStep_mismatch m ir Hir) as [e ->]. by exists e.
    - destruct (remapStep Hash m ir) as [m'|e]; [apply IH | by exists e]. }
  destruct (Hloop ∅) as [e He]. exists e.
  unfold remapSection. by rewrite He.
Qed.

(** C5. A finding declared Binary whose payload is a [*ReportUser] fails
    the assembly and no section is returned, but the error it fails with
    names [deepalert.ReportHost]: the message of the Host case. *)
Theorem remapSection_binary_mismatch_names_ReportHost (R : MapRange)
    (rid : ReportID) (a : Attribute) (u : ReportUser) :
  remapSection (Alert:=Alert) Hash R
    [mkInspectReport rid a ContentBinary (PtrReportUser u)] =
  ([], Some (errors_New "Can not cast content to deepalert.ReportHost")).
Proof. unfold remapSection. simpl. unfold remapStep. simpl. by rewrite lookup_empty. Qed.

(** C8. A finding of a kind other than Host, User and Binary never fails
    the assembly, whatever its payload: the step creates the section of its
    attribute hash, with its attribute as OriginAttr and empty collections,
    when the hash is new, and changes nothing when the section exists; the
    loop goes on after it; assembled alone, it yields one section with an
    OriginAttr and empty Hosts, Users and Binaries. *)
Theorem remapSection_undeclared_kind (R : MapRange)
    (rid : ReportID) (a : Attribute) (tag : string)
    (c : @Content ReportHost ReportUser ReportBinary)
    (m : gmap string ReportSection) (before after : list InspectReport) :
  let ir := mkInspectReport rid a (ContentOther tag) c in
  let m' := match m !! Hash a with
            | Some _ => m
            | None => <[Hash a := mkReportSection (Some a) [] [] []]> m
            end in
  remapStep (Alert:=Alert) Hash m ir = inl m' ∧
  remapLoop (Alert:=Alert) Hash (before ++ ir :: after) m =
    match remapLoop (Alert:=Alert) Hash before m with
    | inl m1 =>
        remapLoop Hash after
          match m1 !! Hash a with
          | Some _ => m1
          | None => <[Hash a := mkReportSection (Some a) [] [] []]> m1
          end
    | inr e => inr e
    end ∧
  remapSection (Alert:=Alert) Hash R [ir] =
    ([mkReportSection (Some a) [] [] []], None).
Proof.
  intros ir m'.
  assert (Hstep : ∀ m0 : gmap string ReportSection,
            remapStep (Alert:=Alert) Hash m0 ir =
            inl match m0 !! Hash a with
                | Some _ => m0
                | None => <[Hash a := mkReportSection (Some a) [] [] []]> m0
                end).
  { intros m0. unfold remapStep, ir. simpl. by destruct (m0 !! Hash a). }
  split; [apply Hstep|]. split.
  - rewrite remapLoop_app. destruct (remapLoop Hash before m) as [m1|e]; [|done].
    simpl. by rewrite Hstep.
  - unfold remapSection. simpl. rewrite Hstep, lookup_empty.
    f_equal.
    pose proof (range_perm R (<[Hash a := mkReportSection (Some a) [] [] []]> ∅)) as Hp.
    rewrite insert_empty, map_to_list_singleton in Hp.
    apply Permutation_singleton_r in Hp. rewrite insert_empty. by rewrite Hp.
Qed.

(** *** The conditional create of the store *)

Lemma tryCreate_vacant (s : Store) key (it : Item) ts :
  outage s = None → live s key ts = false →
  tryCreate s key it ts = (mkStore (<[key := it]> (items s)) None, None).
Proof.
  unfold tryCreate, live, put. intros -> Hl.
  destruct (items s !! key) as [old|]; [|done].
  apply negb_false_iff in Hl. by rewrite Hl.
Qed.

Lemma tryCreate_live (s : Store) key (it : Item) ts :
  outage s = None → live s key ts = true →
  tryCreate s key it ts = (s, Some ErrConditionalCheckFailed).
Proof.
  unfold tryCreate, live. intros -> Hl.
  destruct (items s !! key) as [old|]; [|done].
  apply negb_true_iff in Hl. by rewrite Hl.
Qed.

Lemma tryCreate_outage (s : Store) key (it : Item) ts e :
  outage s = Some e → tryCreate s key it ts = (s, Some e).
Proof. unfold tryCreate. by intros ->. Qed.

(** *** TakeReport on the store *)

Lemma TakeReport_first (x : RepositoryService) (alert : Alert) (now : Time)
    (w : StoreWorld) :
  outage (repo w) = None → live (repo w) (alertEntryKey AlertID alert) now = false →
  TakeReport AlertID x alert now w =
  (Some (mkReport (uuids w (drawn w)) StatusNew now [] []), None,
   mkWorld
     (mkStore
        (<[alertEntryKey AlertID alert :=
             ItAlertEntry
               (mkAlertEntry
                  (mkRecordBase ("alertmap/" +:+ AlertID alert) "Fixed"
                     (Unix (Add now (ttl x))) (Unix now))
                  (uuids w (drawn w)))]> (items (repo w)))
        None)
     (uuids w) (S (drawn w))).
Proof.
  intros Hout Hvac. unfold TakeReport, newReportID, uuid_New_String. simpl.
  unfold alertEntryKey in Hvac. by rewrite tryCreate_vacant.
Qed.

Lemma TakeReport_duplicate (x : RepositoryService) (alert : Alert) (now : Time)
    (w : StoreWorld) (e : AlertEntry) :
  outage (repo w) = None →
  items (repo w) !! alertEntryKey AlertID alert = Some (ItAlertEntry e) →
  (ExpiresAt (ae_Base e) <? Unix now) = false →
  TakeReport AlertID x alert now w =
  (Some (mkReport (ae_ReportID e) StatusMore
           (FromUnix (base_CreatedAt (ae_Base e)) 0) [] []),
   None, mkWorld (repo w) (uuids w) (S (drawn w))).
Proof.
  intros Hout Hlk Hexp. unfold TakeReport, newReportID, uuid_New_String. simpl.
  unfold alertEntryKey in Hlk.
  rewrite tryCreate_live; [|done|by unfold live, expired; rewrite Hlk; simpl; rewrite Hexp].
  simpl. unfold getAs, get. simpl. by rewrite Hout, Hlk.
Qed.

Lemma TakeReportEach_duplicates (x : RepositoryService) (alert : Alert)
    (later : list Time) (w : StoreWorld) (e : AlertEntry) :
  outage (repo w) = None →
  items (repo w) !! alertEntryKey AlertID alert = Some (ItAlertEntry e) →
  Forall (fun t => Unix t <= ExpiresAt (ae_Base e)) later →
  TakeReportEach AlertID x alert later w =
  ((fun _ => (Some (mkReport (ae_ReportID e) StatusMore
                      (FromUnix (base_CreatedAt (ae_Base e)) 0) [] []), None))
     <$> later,
   mkWorld (repo w) (uuids w) (drawn w + length later)%nat).
Proof.
  intros Hout Hlk Hall. revert w Hout Hlk.
  induction Hall as [|t later Ht _ IH]; intros w Hout Hlk.
  - simpl. destruct w. simpl. by rewrite Nat.add_0_r.
  - cbn [TakeReportEach].
    rewrite (TakeReport_duplicate x alert t w e Hout Hlk) by by apply Z.ltb_ge.
    rewrite IH by done. simpl. do 2 f_equal. lia.
Qed.

(** C1. Dedup idempotence: on a store in which no live AlertEntry is under
    the alert's key, a first call to TakeReport followed by any number of
    calls for the same alert within the TTL window of the first (their
    [now] not past the stored ExpiresAt) all return a report and no error;
    all reports carry the ReportID drawn by the first call; the first
    Status is New and every later one is More. *)
Theorem TakeReport_dedup (x : RepositoryService) (alert : Alert)
    (now1 : Time) (later : list Time) (w : StoreWorld) :
  outage (repo w) = None →
  live (repo w) (alertEntryKey AlertID alert) now1 = false →
  Forall (fun t => Unix t <= Unix (Add now1 (ttl x))) later →
  ∃ (reports : list Report) (w' : StoreWorld),
    TakeReportEach AlertID x alert (now1 :: later) w =
      ((fun r => (Some r, None)) <$> reports, w') ∧
    Forall (fun r => ID r = uuids w (drawn w)) reports ∧
    Status <$> reports = StatusNew :: replicate (length later) StatusMore.
Proof.
  intros Hout Hvac Hall. cbn [TakeReportEach].
  rewrite (TakeReport_first x alert now1 w Hout Hvac).
  erewrite TakeReportEach_duplicates;
    [ | done | cbn [repo items]; apply lookup_insert_eq | done ].
  eexists (_ :: ((fun _ => _) <$> later)), _. split; [|split].
  - rewrite fmap_cons, <- list_fmap_compose. reflexivity.
  - constructor; [done|]. apply Forall_fmap, Forall_forall. done.
  - rewrite fmap_cons, <- list_fmap_compose. simpl. f_equal.
    induction later; simpl; [done|]. f_equal. apply IHlater. by inversion Hall.
Qed.

(** C6. Window expiry: after a first assignment at [now1], a call for the
    same alert at a [now2] that is past the stored ExpiresAt returns a
    report with Status New and a ReportID other than the first one, the
    identifier generator never repeating itself. *)
Theorem TakeReport_after_expiry (x : RepositoryService) (alert : Alert)
    (now1 now2 : Time) (w : StoreWorld) :
  outage (repo w) = None →
  live (repo w) (alertEntryKey AlertID alert) now1 = false →
  Inj (=) (=) (uuids w) →
  Unix (Add now1 (ttl x)) < Unix now2 →
  ∃ (r1 r2 : Report) (w' : StoreWorld),
    TakeReportEach AlertID x alert [now1; now2] w =
      ([(Some r1, None); (Some r2, None)], w') ∧
    Status r1 = StatusNew ∧ Status r2 = StatusNew ∧
    ID r2 ≠ ID r1 ∧ CreatedAt r2 = now2 ∧
    items (repo w') !! alertEntryKey AlertID alert =
      Some (ItAlertEntry
              (mkAlertEntry
                 (mkRecordBase ("alertmap/" +:+ AlertID alert) "Fixed"
                    (Unix (Add now2 (ttl x))) (Unix now2))
                 (ID r2))).
Proof.
  intros Hout Hvac Hinj Hexp. cbn [TakeReportEach].
  rewrite (TakeReport_first x alert now1 w Hout Hvac).
  rewrite TakeReport_first; [|done|].
  2:{ unfold live, expired. cbn [repo items]. rewrite lookup_insert_eq. simpl.
      apply negb_false_iff, Z.ltb_lt. exact Hexp. }
  do 3 eexists. split; [reflexivity|]. cbn.
  repeat split; [|apply lookup_insert_eq].
  intros Heq. apply Hinj in Heq. lia.
Qed.

(** C10. CreatedAt of the returned report: a first assignment returns the
    [now] it was called with; a duplicate assignment returns the creation
    time of the stored entry, that is the first call's [now] cut to the
    whole second, whatever the [now] of the duplicate call, with empty
    Alerts and Sections. *)
Theorem TakeReport_CreatedAt (x : RepositoryService) (alert : Alert)
    (now1 now2 : Time) (w : StoreWorld) :
  outage (repo w) = None →
  live (repo w) (alertEntryKey AlertID alert) now1 = false →
  Unix now2 <= Unix (Add now1 (ttl x)) →
  ∃ (r1 r2 : Report) (w' : StoreWorld),
    TakeReportEach AlertID x alert [now1; now2] w =
      ([(Some r1, None); (Some r2, None)], w') ∧
    CreatedAt r1 = now1 ∧
    CreatedAt r2 = FromUnix (Unix now1) 0 ∧
    unixNano (CreatedAt r2) = unixNano now1 - unixNano now1 mod Second ∧
    Alerts r2 = [] ∧ Sections r2 = [].
Proof.
  intros Hout Hvac Hwin. cbn [TakeReportEach].
  rewrite (TakeReport_first x alert now1 w Hout Hvac).
  erewrite TakeReport_duplicate;
    [ | done | cbn [repo items]; apply lookup_insert_eq | by apply Z.ltb_ge ].
  do 3 eexists. split; [reflexivity|]. cbn.
  repeat split. unfold Unix, Second.
  pose proof (Z.div_mod (unixNano now1) 1000000000). lia.
Qed.

(** *** PutAttributeCache *)

(** C4. Outcomes of PutAttributeCache, whatever the repository and whatever
    its put returns: no error from the store gives (true, no error); a
    conditional-check failure gives (false, no error), and (false, no
    error) is returned in that case only; any other store error gives
    false with an error that wraps it; so an error reaches the caller only
    for a store error that is not a conditional-check failure. *)
Theorem PutAttributeCache_outcomes {R : Type}
    `{!@Repository ReportHost ReportUser ReportBinary Alert R}
    (x : RepositoryService) (reportID : ReportID) (attr : Attribute)
    (now : Time) (w : @World R) (r : R) (stored : option error) :
  repo_PutAttributeCache (repo w) (newAttributeCache Hash x reportID attr now) now
    = (r, stored) →
  ∃ (sendable : bool) (err : option error),
    PutAttributeCache Hash x reportID attr now w = (sendable, err, setRepo w r) ∧
    (stored = None → sendable = true ∧ err = None) ∧
    (∀ e, stored = Some e → IsConditionalCheckErr e = true →
          sendable = false ∧ err = None) ∧
    (∀ e, stored = Some e → IsConditionalCheckErr e = false →
          sendable = false ∧ ∃ e', err = Some e' ∧ Cause e' = Some e) ∧
    ((sendable, err) = (false, None) ↔
       ∃ e, stored = Some e ∧ IsConditionalCheckErr e = true) ∧
    (∀ e', err = Some e' →
           ∃ e, stored = Some e ∧ IsConditionalCheckErr e = false ∧
                Cause e' = Some e).
Proof.
  intros Hput. unfold PutAttributeCache. rewrite Hput.
  destruct stored as [e|]; [destruct (IsConditionalCheckErr e) eqn:Hc|];
    do 2 eexists; (split; [reflexivity|]); repeat split;
    try discriminate; try congruence; eauto.
  - intros (e0 & [= <-] & ?). congruence.
  - intros e' [= <-]. eauto.
  - intros (e0 & ? & _). discriminate.
Qed.

Lemma PutAttributeCache_first (x : RepositoryService) (reportID : ReportID)
    (attr : Attribute) (now : Time) (w : StoreWorld) :
  outage (repo w) = None →
  live (repo w) (attributeCacheKey Hash reportID attr) now = false →
  PutAttributeCache Hash x reportID attr now w =
  (true, None,
   mkWorld
     (mkStore
        (<[attributeCacheKey Hash reportID attr :=
             ItAttributeCache (newAttributeCache Hash x reportID attr now)]>
           (items (repo w)))
        None)
     (uuids w) (drawn w)).
Proof.
  intros Hout Hvac. unfold PutAttributeCache. simpl.
  unfold attributeCacheKey in Hvac. by rewrite tryCreate_vacant.
Qed.

(** The state invariant: while a record that has not expired is under the
    key of the pair, a call returns false, without an error, and leaves the
    store as it is. *)
Lemma PutAttributeCache_live (x : RepositoryService) (reportID : ReportID)
    (attr : Attribute) (now : Time) (w : StoreWorld) :
  outage (repo w) = None →
  live (repo w) (attributeCacheKey Hash reportID attr) now = true →
  PutAttributeCache Hash x reportID attr now w = (false, None, w).
Proof.
  intros Hout Hlive. unfold PutAttributeCache. simpl.
  unfold attributeCacheKey in Hlive. rewrite tryCreate_live by done.
  simpl. by destruct w.
Qed.

Lemma PutAttributeCacheEach_live (x : RepositoryService) (reportID : ReportID)
    (attr : Attribute) (later : list Time) (w : StoreWorld) :
  outage (repo w) = None →
  Forall (fun t => live (repo w) (attributeCacheKey Hash reportID attr) t = true)
    later →
  PutAttributeCacheEach Hash x reportID attr later w =
  ((fun _ => (false, None)) <$> later, w).
Proof.
  intros Hout Hall. induction Hall as [|t later Ht _ IH]; [done|].
  cbn [PutAttributeCacheEach].
  rewrite (PutAttributeCache_live x reportID attr t w Hout Ht), IH. done.
Qed.

(** C2. Attribute dispatch at most once: on a store in which no live
    record is under the key of (reportID, attribute hash), of any number of
    calls to PutAttributeCache for the pair, the first returns true and
    every later call, made while the record it created is there and has not
    expired, returns false, none with an error: exactly one call returns
    true. The store keeps the record of the first call. *)
Theorem PutAttributeCache_at_most_once (x : RepositoryService)
    (reportID : ReportID) (attr : Attribute) (now1 : Time) (later : list Time)
    (w : StoreWorld) :
  outage (repo w) = None →
  live (repo w) (attributeCacheKey Hash reportID attr) now1 = false →
  Forall (fun t => Unix t <= Unix (Add now1 (ttl x))) later →
  ∃ (results : list (bool * option error)) (w' : StoreWorld),
    PutAttributeCacheEach Hash x reportID attr (now1 :: later) w = (results, w') ∧
    results = (true, None) :: replicate (length later) (false, None) ∧
    length (filter (fun res => fst res = true) results) = 1%nat ∧
    items (repo w') !! attributeCacheKey Hash reportID attr =
      Some (ItAttributeCache (newAttributeCache Hash x reportID attr now1)).
Proof.
  intros Hout Hvac Hall. cbn [PutAttributeCacheEach].
  rewrite (PutAttributeCache_first x reportID attr now1 w Hout Hvac).
  rewrite PutAttributeCacheEach_live; [|done|].
  2:{ eapply Forall_impl; [exact Hall|]. intros t Ht.
      unfold live, expired. cbn [repo items]. rewrite lookup_insert_eq. simpl.
      apply negb_true_iff, Z.ltb_ge. exact Ht. }
  do 2 eexists. split; [reflexivity|].
  assert (Hrep : ((fun _ => (false, None)) <$> later)
                 = replicate (length later) (false, @None error)).
  { clear. induction later; simpl; [done|]. by f_equal. }
  rewrite Hrep. split; [done|]. split; [|apply lookup_insert_eq].
  rewrite filter_cons_True by done. simpl. f_equal.
  apply length_zero_iff_nil, filter_none.
  intros res Hin. apply elem_of_replicate in Hin as [-> _]. simpl. done.
Qed.

(** *** FetchAttributeCache *)

Lemma scan_insert {A : Type} (s : Store) (pk sk : string) (it : Item)
    (kind : Item → option A) (a : A) :
  outage s = None → kind it = Some a →
  ∃ l, scan (mkStore (<[(pk, sk) := it]> (items s)) None) pk kind = inl l ∧ a ∈ l.
Proof.
  intros Hout Hk. unfold scan. simpl. eexists. split; [reflexivity|].
  apply list_elem_of_omap. exists ((pk, sk), it). split.
  - apply elem_of_map_to_list, lookup_insert_eq.
  - simpl. by rewrite decide_True.
Qed.

Lemma FetchAttributeCache_never_nil {R : Type}
    `{!@Repository ReportHost ReportUser ReportBinary Alert R}
    (x : RepositoryService) (reportID : ReportID) (w : @World R) (a : Attribute) :
  a ∈ fst (FetchAttributeCache x reportID w) → is_Some (attr_Timestamp a).
Proof.
  unfold FetchAttributeCache.
  destruct (GetAttributeCaches (repo w) (toAttributeCacheKey reportID)); simpl.
  - intros Hin. apply list_elem_of_fmap in Hin as (c & -> & _). by eexists.
  - intros Hin. by apply elem_of_nil in Hin.
Qed.

(** C9. The cached timestamp: a call to PutAttributeCache that creates the
    record stores the attribute's timestamp, or the call's [now] when the
    attribute has none; FetchAttributeCache then returns the attribute with
    that timestamp, and in no state of the store does it return an
    attribute without one; a later call for the same pair, while the record
    has not expired, leaves the store with the timestamp first cached. *)
Theorem FetchAttributeCache_timestamp (x : RepositoryService)
    (reportID : ReportID) (attr : Attribute) (now : Time) (w : StoreWorld) :
  outage (repo w) = None →
  live (repo w) (attributeCacheKey Hash reportID attr) now = false →
  ∃ (w' : StoreWorld) (attrs : list Attribute),
    PutAttributeCache Hash x reportID attr now w = (true, None, w') ∧
    FetchAttributeCache x reportID w' = (attrs, None) ∧
    mkAttribute (attr_Type attr) (attr_Key attr) (attr_Value attr)
      (attr_Context attr) (Some (default now (attr_Timestamp attr))) ∈ attrs ∧
    (attr_Timestamp attr = None →
     mkAttribute (attr_Type attr) (attr_Key attr) (attr_Value attr)
       (attr_Context attr) (Some now) ∈ attrs) ∧
    (∀ (w0 : StoreWorld) a,
       a ∈ fst (FetchAttributeCache x reportID w0) → is_Some (attr_Timestamp a)) ∧
    (∀ now2, Unix now2 <= Unix (Add now (ttl x)) →
       PutAttributeCache Hash x reportID attr now2 w' = (false, None, w')).
Proof.
  intros Hout Hvac.
  rewrite (PutAttributeCache_first x reportID attr now w Hout Hvac).
  destruct (scan_insert (repo w) (toAttributeCacheKey reportID) (Hash attr)
              (ItAttributeCache (newAttributeCache Hash x reportID attr now))
              asAttributeCache _ Hout eq_refl) as (l & Hscan & Hin).
  pose proof (fun (w0 : StoreWorld) a =>
                FetchAttributeCache_never_nil x reportID w0 a) as Hnever.
  do 2 eexists. split; [reflexivity|].
  unfold FetchAttributeCache. cbn [repo GetAttributeCaches StoreRepository].
  unfold attributeCacheKey. rewrite Hscan.
  split; [reflexivity|].
  assert (Hmem : mkAttribute (attr_Type attr) (attr_Key attr) (attr_Value attr)
                   (attr_Context attr) (Some (default now (attr_Timestamp attr)))
                 ∈ attributeOfCache <$> l).
  { apply list_elem_of_fmap. eexists. split; [|exact Hin].
    unfold attributeOfCache, newAttributeCache. simpl.
    by destruct (attr_Timestamp attr). }
  split; [exact Hmem|]. split; [by intros Hnil; rewrite Hnil in Hmem|].
  split; [exact Hnever|].
  intros now2 Hwin. apply PutAttributeCache_live; [done|].
  unfold live, expired, attributeCacheKey. cbn [repo items].
  rewrite lookup_insert_eq. simpl. apply negb_true_iff, Z.ltb_ge. exact Hwin.
Qed.

End Properties.

(** ** The properties on the scenario *)

(** Two host findings for the attribute of the scenario give one section
    whose Hosts holds both. *)
Example Scenario_two_hosts :
  remapSection (Alert:=Scenario.Alert) Scenario.Hash keyOrder
    [Scenario.F1;
     mkInspectReport "r" Scenario.srcIP ContentHost (PtrReportHost "host-2")] =
  ([mkReportSection (Some Scenario.srcIP) ["host-1"; "host-2"] [] []], None).
Proof. by vm_compute. Qed.

(** The alert submitted twice within the TTL: one ReportID, New then More. *)
Example Scenario_alert_twice :
  fst (TakeReportEach Scenario.AlertID Scenario.service Scenario.alert
         [Scenario.t0; Scenario.after 60] Scenario.emptyWorld) =
  [(Some (mkReport "report-0" StatusNew Scenario.t0 [] []), None);
   (Some (mkReport "report-0" StatusMore (mkTime 1600000000000000000) [] []), None)].
Proof. by vm_compute. Qed.

(** The attribute submitted twice under that report: true, then false. *)
Example Scenario_attribute_twice :
  fst (PutAttributeCacheEach Scenario.Hash Scenario.service "report-0"
         Scenario.srcIP [Scenario.t0; Scenario.after 60] Scenario.emptyWorld) =
  [(true, None); (false, None)].
Proof. by vm_compute. Qed.

(** During an outage of the store the error reaches the caller, wrapped. *)
Example Scenario_outage :
  fst (PutAttributeCache Scenario.Hash Scenario.service "report-0"
         Scenario.srcIP Scenario.t0 Scenario.faultyWorld) =
  (false,
   Some (ErrWrap Scenario.throttled "Fail to put attr cache"
           [("reportID", VString "report-0"); ("attr", VAttribute Scenario.srcIP)])).
Proof. by vm_compute. Qed.

Lemma Scenario_uuids_inj : Inj (=) (=) Scenario.uuids.
Proof.
  intros n m Heq. unfold Scenario.uuids in Heq. cbn in Heq.
  injection Heq as Heq. by apply (inj pretty).
Qed.

Lemma remapSection_groups_by_hash_witness :
  ∃ (secs : list Scenario.Section_) (sH sH2 : Scenario.Section_),
    remapSection (Alert:=Scenario.Alert) Scenario.Hash keyOrder
      [Scenario.F1; Scenario.F2; Scenario.F3] = (secs, None) ∧
    filter (fun s => sectionHash Scenario.Hash s = Some "ipaddr:src_ip=10.0.0.1")
      secs = [sH] ∧
    filter (fun s => sectionHash Scenario.Hash s = Some "username:login=alice")
      secs = [sH2] ∧
    "host-1" ∈ Hosts sH ∧ "alice" ∈ Users sH ∧
    OriginAttr sH =
      ir_Attribute <$> head (group Scenario.Hash "ipaddr:src_ip=10.0.0.1"
                               [Scenario.F1; Scenario.F2; Scenario.F3]) ∧
    OriginAttr sH2 =
      ir_Attribute <$> head (group Scenario.Hash "username:login=alice"
                               [Scenario.F1; Scenario.F2; Scenario.F3]) ∧
    assembled Scenario.Hash "ipaddr:src_ip=10.0.0.1"
      [Scenario.F1; Scenario.F2; Scenario.F3] = Some sH ∧
    assembled Scenario.Hash "username:login=alice"
      [Scenario.F1; Scenario.F2; Scenario.F3] = Some sH2.
Proof.
  apply (remapSection_groups_by_hash Scenario.Hash keyOrder
           [Scenario.F1; Scenario.F2; Scenario.F3]
           Scenario.F1 Scenario.F2 Scenario.F3 "host-1" "alice");
    try reflexivity; try discriminate; repeat constructor.
Defined.

Lemma TakeReport_dedup_witness :
  ∃ (reports : list Report) (w' : Scenario.World),
    TakeReportEach Scenario.AlertID Scenario.service Scenario.alert
      [Scenario.t0; Scenario.after 10; Scenario.after 3600] Scenario.emptyWorld =
      ((fun r => (Some r, None)) <$> reports, w') ∧
    Forall (fun r => ID r = "report-0") reports ∧
    Status <$> reports = [StatusNew; StatusMore; StatusMore].
Proof.
  apply (TakeReport_dedup Scenario.AlertID Scenario.service Scenario.alert
           Scenario.t0 [Scenario.after 10; Scenario.after 3600]
           Scenario.emptyWorld);
    [reflexivity | reflexivity | repeat constructor; by vm_compute].
Defined.

Lemma TakeReport_after_expiry_witness :
  ∃ (r1 r2 : Report) (w' : Scenario.World),
    TakeReportEach Scenario.AlertID Scenario.service Scenario.alert
      [Scenario.t0; Scenario.after 3601] Scenario.emptyWorld =
      ([(Some r1, None); (Some r2, None)], w') ∧
    Status r1 = StatusNew ∧ Status r2 = StatusNew ∧
    ID r2 ≠ ID r1 ∧ CreatedAt r2 = Scenario.after 3601 ∧
    items (repo w') !! alertEntryKey Scenario.AlertID Scenario.alert =
      Some (ItAlertEntry
              (mkAlertEntry
                 (mkRecordBase ("alertmap/" +:+ Scenario.AlertID Scenario.alert)
                    "Fixed"
                    (Unix (Add (Scenario.after 3601) (ttl Scenario.service)))
                    (Unix (Scenario.after 3601)))
                 (ID r2))).
Proof.
  apply (TakeReport_after_expiry Scenario.AlertID Scenario.service Scenario.alert
           Scenario.t0 (Scenario.after 3601) Scenario.emptyWorld);
    [reflexivity | reflexivity | exact Scenario_uuids_inj | by vm_compute].
Defined.

Lemma TakeReport_CreatedAt_witness :
  ∃ (r1 r2 : Report) (w' : Scenario.World),
    TakeReportEach Scenario.AlertID Scenario.service Scenario.alert
      [Scenario.t0; Scenario.after 10] Scenario.emptyWorld =
      ([(Some r1, None); (Some r2, None)], w') ∧
    CreatedAt r1 = Scenario.t0 ∧
    CreatedAt r2 = FromUnix (Unix Scenario.t0) 0 ∧
    unixNano (CreatedAt r2) =
      unixNano Scenario.t0 - unixNano Scenario.t0 mod Second ∧
    Alerts r2 = [] ∧ Sections r2 = [].
Proof.
  apply (TakeReport_CreatedAt Scenario.AlertID Scenario.service Scenario.alert
           Scenario.t0 (Scenario.after 10) Scenario.emptyWorld);
    [reflexivity | reflexivity | by vm_compute].
Defined.

Lemma PutAttributeCache_outcomes_witness :
  ∃ (sendable : bool) (err : option Scenario.Err),
    PutAttributeCache Scenario.Hash Scenario.service "report-0" Scenario.srcIP
      Scenario.t0 Scenario.faultyWorld =
      (sendable, err, setRepo Scenario.faultyWorld (repo Scenario.faultyWorld)) ∧
    (Some Scenario.throttled = None → sendable = true ∧ err = None) ∧
    (∀ e, Some Scenario.throttled = Some e → IsConditionalCheckErr e = true →
          sendable = false ∧ err = None) ∧
    (∀ e, Some Scenario.throttled = Some e → IsConditionalCheckErr e = false →
          sendable = false ∧ ∃ e', err = Some e' ∧ Cause e' = Some e) ∧
    ((sendable, err) = (false, None) ↔
       ∃ e, Some Scenario.throttled = Some e ∧ IsConditionalCheckErr e = true) ∧
    (∀ e', err = Some e' →
           ∃ e, Some Scenario.throttled = Some e ∧
                IsConditionalCheckErr e = false ∧ Cause e' = Some e).
Proof.
  apply (PutAttributeCache_outcomes Scenario.Hash Scenario.service "report-0"
           Scenario.srcIP Scenario.t0 Scenario.faultyWorld
           (repo Scenario.faultyWorld) (Some Scenario.throttled)).
  reflexivity.
Defined.

Lemma PutAttributeCache_at_most_once_witness :
  ∃ (results : list (bool * option Scenario.Err)) (w' : Scenario.World),
    PutAttributeCacheEach Scenario.Hash Scenario.service "report-0"
      Scenario.srcIP [Scenario.t0; Scenario.after 1; Scenario.after 3600]
      Scenario.emptyWorld = (results, w') ∧
    results = [(true, None); (false, None); (false, None)] ∧
    length (filter (fun res => fst res = true) results) = 1%nat ∧
    items (repo w') !! attributeCacheKey Scenario.Hash "report-0" Scenario.srcIP =
      Some (ItAttributeCache
              (newAttributeCache Scenario.Hash Scenario.service "report-0"
                 Scenario.srcIP Scenario.t0)).
Proof.
  apply (PutAttributeCache_at_most_once Scenario.Hash Scenario.service "report-0"
           Scenario.srcIP Scenario.t0 [Scenario.after 1; Scenario.after 3600]
           Scenario.emptyWorld);
    [reflexivity | reflexivity | repeat constructor; by vm_compute].
Defined.

Lemma FetchAttributeCache_timestamp_witness :
  ∃ (w' : Scenario.World) (attrs : list Attribute),
    PutAttributeCache Scenario.Hash Scenario.service "report-0" Scenario.srcIP
      Scenario.t0 Scenario.emptyWorld = (true, None, w') ∧
    FetchAttributeCache Scenario.service "report-0" w' = (attrs, None) ∧
    mkAttribute "ipaddr" "src_ip" "10.0.0.1" [] (Some Scenario.t0) ∈ attrs ∧
    (attr_Timestamp Scenario.srcIP = None →
     mkAttribute "ipaddr" "src_ip" "10.0.0.1" [] (Some Scenario.t0) ∈ attrs) ∧
    (∀ (w0 : Scenario.World) a,
       a ∈ fst (FetchAttributeCache Scenario.service "report-0" w0) →
       is_Some (attr_Timestamp a)) ∧
    (∀ now2, Unix now2 <= Unix (Add Scenario.t0 (ttl Scenario.service)) →
       PutAttributeCache Scenario.Hash Scenario.service "report-0" Scenario.srcIP
         now2 w' = (false, None, w')).
Proof.
  apply (FetchAttributeCache_timestamp Scenario.Hash Scenario.service "report-0"
           Scenario.srcIP Scenario.t0 Scenario.emptyWorld); reflexivity.
Defined.

(** ** Further properties of the service *)

Section ServiceProperties.

Context {ReportHost ReportUser ReportBinary Alert : Type}.
Variable AlertID : Alert -> string.
Variable Hash : Attribute -> string.

Local Abbreviation InspectReport := (@InspectReport ReportHost ReportUser ReportBinary).
Local Abbreviation ReportSection := (@ReportSection ReportHost ReportUser ReportBinary).
Local Abbreviation Report := (@Report ReportHost ReportUser ReportBinary Alert).
Local Abbreviation error := (@error ReportHost ReportUser ReportBinary Alert).
Local Abbreviation MapRange := (@MapRange ReportHost ReportUser ReportBinary).
Local Abbreviation Store := (@Store ReportHost ReportUser ReportBinary Alert).
Local Abbreviation Item := (@Item ReportHost ReportUser ReportBinary Alert).
Local Abbreviation StoreWorld := (@World Store).

(** *** remapSection: when it fails, and what it returns *)

Lemma remapSection_ok_iff (R : MapRange) (irs : list InspectReport) :
  snd (remapSection (Alert:=Alert) Hash R irs) = None ↔
  Forall (fun ir => consistent ir = true) irs.
Proof.
  split.
  - intros Hok. apply Forall_forall. intros ir Hin.
    destruct (consistent ir) eqn:Hc; [done|].
    destruct (remapSection_mismatch_fails (Alert:=Alert) Hash R irs) as [e He].
    { apply Exists_exists. eauto. }
    rewrite He in Hok. discriminate.
  - intros Hall.
    destruct (remapSection_assembled (Alert:=Alert) Hash R irs Hall) as (m & -> & _).
    done.
Qed.

(** remapSection returns an error exactly when some finding has a declared
    kind that its payload does not match; with an error it returns no
    section, whatever was assembled before the failing finding. *)
Theorem remapSection_fails_iff_mismatch (R : MapRange) (irs : list InspectReport) :
  (snd (remapSection (Alert:=Alert) Hash R irs) = None ↔
     Forall (fun ir => consistent ir = true) irs) ∧
  (is_Some (snd (remapSection (Alert:=Alert) Hash R irs)) →
     fst (remapSection (Alert:=Alert) Hash R irs) = []).
Proof.
  split; [apply remapSection_ok_iff|].
  unfold remapSection. destruct (remapLoop Hash irs ∅); simpl; [|done].
    intros [? ?]. discriminate.
Qed.

Lemma NoDup_omap_inj {A B} (f : A → option B) (l : list A) :
  (∀ x y z, f x = Some z → f y = Some z → x = y) →
  NoDup l → NoDup (omap f l).
Proof.
  intros Hinj. induction 1 as [|x l Hx Hl IH]; simpl; [constructor|].
  destruct (f x) as [z|] eqn:Hfx; [|done].
  constructor; [|done].
  intros Hin. apply list_elem_of_omap in Hin as (y & Hy & Hfy).
  by rewrite (Hinj x y z Hfx Hfy) in Hx.
Qed.

Lemma omap_pair_snd {A B} (f : A → option B) (l : list A) :
  omap (fun x => snd <$> (pair x <$> f x)) l = omap f l.
Proof.
  induction l as [|x l IH]; simpl; [done|].
  destruct (f x); simpl; [f_equal|]; exact IH.
Qed.

Lemma length_omap_total {A B} (f : A → option B) (l : list A) :
  (∀ x, x ∈ l → is_Some (f x)) → length (omap f l) = length l.
Proof.
  induction l as [|x l IH]; intros Hsome; simpl; [done|].
  destruct (Hsome x) as [y ->]; [left|]. simpl. f_equal.
  apply IH. intros z Hz. apply Hsome. by right.
Qed.

Lemma assembled_Some_hash h (irs : list InspectReport) s :
  assembled Hash h irs = Some s → h ∈ (Hash ∘ ir_Attribute) <$> irs.
Proof.
  unfold assembled. destruct (group Hash h irs) as [|f g] eqn:Hg; [done|].
  intros _. assert (Hf : f ∈ group Hash h irs) by (rewrite Hg; left).
  apply list_elem_of_filter in Hf as [Hh Hin].
  apply list_elem_of_fmap. exists f. by split.
Qed.

(** On findings whose kinds match their payloads, remapSection returns, in
    some order, exactly one section for each attribute hash that occurs: the
    section holding the attribute of the first finding of the hash and the
    payloads of all its findings, by kind, in the order of the list. So
    there are as many sections as distinct attribute hashes. *)
Theorem remapSection_one_section_per_hash (R : MapRange) (irs : list InspectReport) :
  Forall (fun ir => consistent ir = true) irs →
  let hashes := remove_dups ((Hash ∘ ir_Attribute) <$> irs) in
  snd (remapSection (Alert:=Alert) Hash R irs) = None ∧
  fst (remapSection (Alert:=Alert) Hash R irs)
    ≡ₚ omap (fun h => assembled Hash h irs) hashes ∧
  length (fst (remapSection (Alert:=Alert) Hash R irs)) = length hashes.
Proof.
  intros Hall hashes.
  destruct (remapSection_assembled (Alert:=Alert) Hash R irs Hall) as (m & Hres & Hm).
  rewrite Hres. cbn [fst snd]. split; [done|].
  assert (Hperm : map_to_list m
            ≡ₚ omap (fun h => pair h <$> assembled Hash h irs) hashes).
  { apply NoDup_Permutation.
    - apply NoDup_map_to_list.
    - apply NoDup_omap_inj; [|apply NoDup_remove_dups].
      intros x y [k s] Hx Hy.
      destruct (assembled Hash x irs), (assembled Hash y irs); simpl in *; congruence.
    - intros [k s]. rewrite elem_of_map_to_list, Hm, list_elem_of_omap. split.
      + intros Hs. exists k. split; [|by rewrite Hs].
        apply elem_of_remove_dups. by eapply assembled_Some_hash.
      + intros (h & _ & Hh). destruct (assembled Hash h irs) eqn:Ha; simpl in Hh; [|done].
        by injection Hh as -> ->. }
  assert (Hsecs : snd <$> range R m ≡ₚ omap (fun h => assembled Hash h irs) hashes).
  { by rewrite (range_perm R m), Hperm, list_fmap_omap, omap_pair_snd. }
  split; [exact Hsecs|].
  rewrite Hsecs. apply length_omap_total.
  intros h Hin. apply elem_of_remove_dups, list_elem_of_fmap in Hin as (ir & -> & Hin).
  by apply (assembled_is_Some Hash _ irs ir).
Qed.

(** *** TakeReport: results, writes and the TTL *)


(** TakeReport writes at most the record under the key of its alert: every
    other record of the store is after the call what it was before, and so
    is the outage flag, in every state of the store. *)
Theorem TakeReport_writes_own_key_only (x : RepositoryService) (alert : Alert)
    (now : Time) (w : StoreWorld) (key : string * string) :
  key ≠ alertEntryKey AlertID alert →
  let w' := snd (TakeReport AlertID x alert now w) in
  items (repo w') !! key = items (repo w) !! key ∧
  outage (repo w') = outage (repo w).
Proof.
  intros Hne. unfold TakeReport, newReportID, uuid_New_String. cbn zeta.
  cbn [repo PutAlertEntry StoreRepository ae_Base PKey SKey].
  unfold tryCreate, put. unfold alertEntryKey in Hne.
  destruct (outage (repo w)) as [e|] eqn:Hout; cbn.
  - destruct (isConditionalCheckErr e); [|by cbn].
    unfold getAs, get. rewrite Hout. by cbn.
  - destruct (items (repo w) !! _) as [old|] eqn:Hlk; cbn.
    + destruct (expired old now); cbn.
      * by rewrite lookup_insert_ne.
      * unfold getAs, get. rewrite Hout, Hlk. by destruct (asAlertEntry old).
    + by rewrite lookup_insert_ne.
Qed.

Lemma seconds_in_range (ttl : Z) :
  -9223372036 <= ttl <= 9223372036 → seconds ttl = ttl * Second.
Proof.
  intros Hr. unfold seconds, wrap64, Second.
  rewrite (Z.mod_small (ttl + 2 ^ 63)) by lia.
  replace (ttl + 2 ^ 63 - 2 ^ 63) with ttl by lia.
  rewrite Z.mod_small by lia. lia.
Qed.

Lemma Unix_Add_seconds (now : Time) (ttl : Z) :
  -9223372036 <= ttl <= 9223372036 →
  Unix (Add now (seconds ttl)) = Unix now + ttl.
Proof.
  intros Hr. rewrite seconds_in_range by done. unfold Unix, Add, Second. simpl.
  by rewrite Z.div_add.
Qed.

(** The TTL window in seconds: for a service made by NewRepositoryService
    with a TTL between -9223372036 and 9223372036 seconds, after a first
    assignment at [now1] a call at [now2] is a duplicate (Status More, same
    ReportID) when the second of [now2] is at most the second of [now1] plus
    the TTL, and a new assignment (Status New) otherwise. *)
Theorem TakeReport_window_in_seconds (n : Z) (alert : Alert)
    (now1 now2 : Time) (w : StoreWorld) :
  -9223372036 <= n <= 9223372036 →
  outage (repo w) = None →
  live (repo w) (alertEntryKey AlertID alert) now1 = false →
  ∃ (r1 r2 : Report) (w' : StoreWorld),
    TakeReportEach AlertID (NewRepositoryService n) alert [now1; now2] w =
      ([(Some r1, None); (Some r2, None)], w') ∧
    Status r1 = StatusNew ∧
    (Unix now2 <= Unix now1 + n → Status r2 = StatusMore ∧ ID r2 = ID r1) ∧
    (Unix now1 + n < Unix now2 → Status r2 = StatusNew).
Proof.
  intros Hr Hout Hvac. cbn [TakeReportEach].
  rewrite (TakeReport_first AlertID _ alert now1 w Hout Hvac).
  cbn [ttl NewRepositoryService].
  destruct (decide (Unix now2 <= Unix now1 + n)) as [Hin|Hpast].
  - erewrite TakeReport_duplicate;
      [ | done | cbn [repo items]; apply lookup_insert_eq
        | cbn; rewrite Unix_Add_seconds by done; by apply Z.ltb_ge ].
    do 3 eexists. split; [reflexivity|]. cbn. repeat split; lia.
  - rewrite TakeReport_first; [|done|].
    2:{ unfold live, expired. cbn [repo items]. rewrite lookup_insert_eq. cbn.
        rewrite Unix_Add_seconds by done. apply negb_false_iff, Z.ltb_lt. lia. }
    do 3 eexists. split; [reflexivity|]. cbn. repeat split; lia.
Qed.

(** With a TTL whose duration is minus one second or less, the entry is
    past its expiry the moment it is written: a call at the same instant, or
    later, is a new assignment again, and no two calls are merged. *)
Theorem TakeReport_negative_ttl_never_merges (x : RepositoryService)
    (alert : Alert) (now1 now2 : Time) (w : StoreWorld) :
  ttl x <= - Second →
  unixNano now1 <= unixNano now2 →
  outage (repo w) = None →
  live (repo w) (alertEntryKey AlertID alert) now1 = false →
  ∃ (r1 r2 : Report) (w' : StoreWorld),
    TakeReportEach AlertID x alert [now1; now2] w =
      ([(Some r1, None); (Some r2, None)], w') ∧
    Status r1 = StatusNew ∧ Status r2 = StatusNew ∧
    ID r1 = uuids w (drawn w) ∧ ID r2 = uuids w (S (drawn w)).
Proof.
  intros Hneg Hle Hout Hvac. cbn [TakeReportEach].
  rewrite (TakeReport_first AlertID x alert now1 w Hout Hvac).
  rewrite TakeReport_first; [|done|].
  2:{ unfold live, expired. cbn [repo items]. rewrite lookup_insert_eq. cbn.
      apply negb_false_iff, Z.ltb_lt. unfold Unix, Add, Second in *. cbn.
      apply Z.lt_le_trans with (unixNano now1 / 1000000000).
      - replace (unixNano now1) with ((unixNano now1 - 1000000000) + 1 * 1000000000) at 2 by lia.
        rewrite Z.div_add by lia.
        assert ((unixNano now1 + ttl x) / 1000000000
                <= (unixNano now1 - 1000000000) / 1000000000)
          by (apply Z.div_le_mono; lia).
        lia.
      - apply Z.div_le_mono; lia. }
  do 3 eexists. split; [reflexivity|]. by cbn.
Qed.

(** *** Saving and fetching through the store *)

Variable json_Marshal_Alert : Alert -> string + error.
Variable json_Unmarshal_Alert : string -> Alert + error.
Variable json_Marshal_InspectReport : InspectReport -> string + error.
Variable json_Unmarshal_InspectReport : string -> InspectReport + error.

Local Abbreviation decodeAlert :=
  (fun c : AlertCache =>
     match json_Unmarshal_Alert (AlertData c) with
     | inl a => Some a
     | inr _ => None
     end).

Local Abbreviation decodeFinding :=
  (fun r : InspectorReportRecord =>
     match json_Unmarshal_InspectReport (Data r) with
     | inl f => Some f
     | inr _ => None
     end).

Lemma scan_insert_fresh {A : Type} (s : Store) (pk sk : string) (it : Item)
    (kind : Item → option A) (a : A) :
  outage s = None → items s !! (pk, sk) = None → kind it = Some a →
  ∃ l0 l, scan s pk kind = inl l0 ∧
          scan (mkStore (<[(pk, sk) := it]> (items s)) None) pk kind = inl l ∧
          l ≡ₚ a :: l0.
Proof.
  intros Hout Hfresh Hk. unfold scan. rewrite Hout. cbn [outage items].
  do 2 eexists. split; [reflexivity|]. split; [reflexivity|].
  rewrite (map_to_list_insert _ _ _ Hfresh). cbn.
  by rewrite decide_True, Hk.
Qed.

Lemma unmarshalAlerts_ok (caches : list AlertCache) (acc l : list Alert) :
  unmarshalAlerts json_Unmarshal_Alert caches acc = (l, None) ↔
  Forall (fun c => is_Some (decodeAlert c)) caches ∧ l = acc ++ omap decodeAlert caches.
Proof.
  revert acc. induction caches as [|c caches IH]; intros acc; cbn.
  - rewrite app_nil_r. split; [by intros [= <-] | by intros [_ ->]].
  - destruct (json_Unmarshal_Alert (AlertData c)) as [a|e] eqn:Hd.
    + rewrite IH, <- app_assoc. cbn. split.
      * intros [Hall ->]. split; [|done]. constructor; [|done]. by rewrite Hd.
      * intros [Hall ->]. split; [|done]. by inversion Hall.
    + split; [done|]. intros [Hall _]. inversion Hall as [|?? [? Hc]]; subst.
      by rewrite Hd in Hc.
Qed.

(** An alert saved by SaveAlertCache is returned by FetchAlertCache: when
    the codec gives the alert back from what it made of it, the key drawn
    for the cache is free, and the caches already kept for the report
    decode, the fetch after the save returns the alerts of the fetch before
    it and the saved alert, in some order. *)
Theorem SaveAlertCache_then_FetchAlertCache (x : RepositoryService)
    (reportID : ReportID) (alert : Alert) (now : Time) (w : StoreWorld)
    (raw : string) (alerts : list Alert) :
  outage (repo w) = None →
  json_Marshal_Alert alert = inl raw →
  json_Unmarshal_Alert raw = inl alert →
  items (repo w) !! ("alert/" +:+ reportID, "cache/" +:+ uuids w (drawn w)) = None →
  fst (FetchAlertCache json_Unmarshal_Alert x reportID w) = (alerts, None) →
  ∃ (w1 : StoreWorld) (alerts' : list Alert),
    SaveAlertCache json_Marshal_Alert x reportID alert now w = (None, w1) ∧
    fst (FetchAlertCache json_Unmarshal_Alert x reportID w1) = (alerts', None) ∧
    alerts' ≡ₚ alert :: alerts.
Proof.
  intros Hout Hm Hu Hfresh Hbefore.
  destruct (scan_insert_fresh (repo w) ("alert/" +:+ reportID)
              ("cache/" +:+ uuids w (drawn w))
              (ItAlertCache
                 (mkAlertCache
                    (mkRecordBase ("alert/" +:+ reportID)
                       ("cache/" +:+ uuids w (drawn w))
                       (Unix (Add (UTC now) (ttl x))) 0) raw))
              asAlertCache _ Hout Hfresh eq_refl) as (l0 & l & Hs0 & Hs & Hperm).
  unfold SaveAlertCache, FetchAlertCache, toAlertCacheKey, uuid_New_String in *.
  rewrite Hm.
  cbn [repo setRepo uuids drawn fst snd PutAlertCache GetAlertCaches
       StoreRepository ac_Base PKey SKey] in *.
  unfold put. rewrite Hout. cbn [repo setRepo uuids drawn fst snd items outage].
  rewrite Hs0 in Hbefore. cbn [fst] in Hbefore.
  apply unmarshalAlerts_ok in Hbefore as [Hall ->].
  do 2 eexists. split; [reflexivity|].
  cbn [repo setRepo uuids drawn fst snd items outage]. rewrite Hs. cbn [fst].
  split.
  - apply unmarshalAlerts_ok. split; [|reflexivity].
    rewrite Hperm. constructor; [|done]. cbn [AlertData]. by rewrite Hu.
  - cbn [app]. rewrite Hperm. cbn [omap list_omap AlertData]. by rewrite Hu.
Qed.

Lemma unmarshalAlerts_fails (caches : list AlertCache) (acc : list Alert) :
  Exists (fun c => decodeAlert c = None) caches →
  ∃ e, unmarshalAlerts json_Unmarshal_Alert caches acc = ([], Some e).
Proof.
  intros Hex. revert acc.
  induction caches as [|c caches IH]; intros acc; [by inversion Hex|].
  cbn. destruct (json_Unmarshal_Alert (AlertData c)) as [a|e] eqn:Hd; [|by eexists].
  apply IH. inversion Hex as [?? Hc|]; subst; [|done]. by rewrite Hd in Hc.
Qed.

(** One cache that does not decode fails the whole fetch: whatever the
    repository, when a cache among those it returns for the report does not
    unmarshal, FetchAlertCache returns an error and none of the alerts, the
    ones that decode included. *)
Theorem FetchAlertCache_fails_on_undecodable_cache {R : Type}
    `{!@Repository ReportHost ReportUser ReportBinary Alert R}
    (x : RepositoryService) (reportID : ReportID) (w : @World R)
    (caches : list AlertCache) (c : AlertCache) (e : error) :
  GetAlertCaches (repo w) ("alert/" +:+ reportID) = inl caches →
  c ∈ caches →
  json_Unmarshal_Alert (AlertData c) = inr e →
  ∃ e', fst (FetchAlertCache json_Unmarshal_Alert x reportID w) = ([], Some e').
Proof.
  intros Hget Hin Hbad. unfold FetchAlertCache, toAlertCacheKey, uuid_New_String.
  cbn [repo]. rewrite Hget. cbn [fst].
  apply unmarshalAlerts_fails, Exists_exists. exists c. split; [done|].
  by rewrite Hbad.
Qed.

Lemma toReportKey_inj (a b : ReportID) : toReportKey a = toReportKey b → a = b.
Proof. unfold toReportKey. apply (inj (String.app "report/")). Qed.

(** A report put by PutReport is what GetReport returns for its ID, until
    the next put for that ID (the last write wins); the reports of other IDs
    are not touched. *)
Theorem PutReport_then_GetReport (x : RepositoryService) (report : Report)
    (reportID : ReportID) (w : StoreWorld) :
  outage (repo w) = None →
  fst (PutReport x report w) = None ∧
  GetReport x reportID (snd (PutReport x report w)) =
    if decide (reportID = ID report) then (Some report, None)
    else GetReport x reportID w.
Proof.
  intros Hout. unfold PutReport, GetReport. cbn. unfold put, getAs, get.
  rewrite Hout. cbn. split; [done|]. case_decide as Hid.
  - subst. by rewrite lookup_insert_eq.
  - rewrite lookup_insert_ne; [done|].
    intros [= Heq]. apply Hid. symmetry. by apply toReportKey_inj.
Qed.

Lemma unmarshalReports_ok (records : list InspectorReportRecord)
    (acc l : list InspectReport) :
  unmarshalReports json_Unmarshal_InspectReport records acc = inl l ↔
  Forall (fun r => is_Some (decodeFinding r)) records ∧
  l = acc ++ omap decodeFinding records.
Proof.
  revert acc. induction records as [|r records IH]; intros acc; cbn.
  - rewrite app_nil_r. split; [by intros [= <-] | by intros [_ ->]].
  - destruct (json_Unmarshal_InspectReport (Data r)) as [f|e] eqn:Hd.
    + rewrite IH, <- app_assoc. cbn. split.
      * intros [Hall ->]. split; [|done]. constructor; [|done]. by rewrite Hd.
      * intros [Hall ->]. split; [|done]. by inversion Hall.
    + split; [done|]. intros [Hall _]. inversion Hall as [|?? [? Hc]]; subst.
      by rewrite Hd in Hc.
Qed.

Lemma assembled_binaries h (irs : list InspectReport) s ir c :
  assembled Hash h irs = Some s → ir ∈ irs → Hash (ir_Attribute ir) = h →
  binaryOf ir = Some c → c ∈ Binaries s.
Proof.
  intros Hs Hin Hh Hc. rewrite (assembled_Some Hash _ _ _ Hs). cbn [Binaries].
  apply list_elem_of_omap. exists ir. split; [|done].
  by apply list_elem_of_filter.
Qed.

(** A finding saved by SaveInspectReport shows in the sections
    FetchInspectReport returns: when the codec gives the finding back, its
    kind matches its payload, the key drawn for the record is free and the
    fetch before the save succeeds, the fetch after the save succeeds and
    returns a section that stands for the attribute hash of the finding and
    holds its payload in the collection of its kind. *)
Theorem SaveInspectReport_then_FetchInspectReport (M : MapRange)
    (x : RepositoryService) (finding : InspectReport) (now : Time)
    (w : StoreWorld) (raw : string) :
  outage (repo w) = None →
  json_Marshal_InspectReport finding = inl raw →
  json_Unmarshal_InspectReport raw = inl finding →
  consistent finding = true →
  items (repo w) !! ("content/" +:+ ir_ReportID finding,
                     Hash (ir_Attribute finding) +:+ "/" +:+ uuids w (drawn w)) = None →
  snd (fst (FetchInspectReport Hash json_Unmarshal_InspectReport M x
              (ir_ReportID finding) w)) = None →
  ∃ (w1 : StoreWorld) (sections : list ReportSection) (s : ReportSection),
    SaveInspectReport Hash json_Marshal_InspectReport x finding now w = (None, w1) ∧
    fst (FetchInspectReport Hash json_Unmarshal_InspectReport M x
           (ir_ReportID finding) w1) = (sections, None) ∧
    s ∈ sections ∧
    sectionHash Hash s = Some (Hash (ir_Attribute finding)) ∧
    (∀ c, hostOf finding = Some c → c ∈ Hosts s) ∧
    (∀ c, userOf finding = Some c → c ∈ Users s) ∧
    (∀ c, binaryOf finding = Some c → c ∈ Binaries s).
Proof.
  intros Hout Hm Hu Hcons Hfresh Hbefore.
  destruct (scan_insert_fresh (repo w) ("content/" +:+ ir_ReportID finding)
              (Hash (ir_Attribute finding) +:+ "/" +:+ uuids w (drawn w))
              (ItInspectorReport
                 (mkInspectorReportRecord
                    (mkRecordBase ("content/" +:+ ir_ReportID finding)
                       (Hash (ir_Attribute finding) +:+ "/" +:+ uuids w (drawn w))
                       (Unix (Add (UTC now) (ttl x))) 0) raw))
              asInspectorReport _ Hout Hfresh eq_refl) as (l0 & l & Hs0 & Hs & Hperm).
  unfold SaveInspectReport, FetchInspectReport, toInspectReportKeys,
    uuid_New_String in *.
  rewrite Hm.
  cbn [repo setRepo uuids drawn fst snd PutInspectorReport GetInspectorReports
       StoreRepository irr_Base PKey SKey] in *.
  unfold put. rewrite Hout. cbn [repo setRepo uuids drawn fst snd items outage].
  rewrite Hs0 in Hbefore.
  destruct (unmarshalReports json_Unmarshal_InspectReport l0 []) as [irs|e] eqn:Hdec;
    [|discriminate Hbefore].
  apply unmarshalReports_ok in Hdec as [Hall ->]. cbn [app] in Hbefore.
  assert (Hirs : Forall (fun ir => consistent ir = true) (omap decodeFinding l0)).
  { apply (proj1 (remapSection_ok_iff M (omap decodeFinding l0))).
    destruct (remapSection Hash M (omap decodeFinding l0)) as [secs [e|]];
      [discriminate Hbefore | done]. }
  assert (Hdec' : unmarshalReports json_Unmarshal_InspectReport l []
                  = inl (omap decodeFinding l)).
  { apply unmarshalReports_ok. split; [|done].
    rewrite Hperm. constructor; [|done]. cbn [Data]. by rewrite Hu. }
  assert (Hperm' : omap decodeFinding l ≡ₚ finding :: omap decodeFinding l0).
  { rewrite Hperm. cbn [omap list_omap Data]. by rewrite Hu. }
  assert (Hall' : Forall (fun ir => consistent ir = true) (omap decodeFinding l)).
  { rewrite Hperm'. by constructor. }
  destruct (remapSection_assembled (Alert:=Alert) Hash M _ Hall') as (m & Hres & Hmap).
  assert (Hin : finding ∈ omap decodeFinding l) by (rewrite Hperm'; left).
  destruct (assembled_is_Some Hash (Hash (ir_Attribute finding)) _ finding Hin eq_refl)
    as [s Hs'].
  exists (mkWorld
            (mkStore
               (<[("content/" +:+ ir_ReportID finding,
                   Hash (ir_Attribute finding) +:+ "/" +:+ uuids w (drawn w)) :=
                    ItInspectorReport
                      (mkInspectorReportRecord
                         (mkRecordBase ("content/" +:+ ir_ReportID finding)
                            (Hash (ir_Attribute finding) +:+ "/" +:+ uuids w (drawn w))
                            (Unix (Add (UTC now) (ttl x))) 0) raw)]>
                  (items (repo w))) None)
            (uuids w) (S (drawn w))),
    (snd <$> range M m), s.
  split; [reflexivity|].
  cbn [repo setRepo uuids drawn fst snd items outage].
  rewrite Hs, Hdec', Hres. split; [reflexivity|].
  split.
  { apply list_elem_of_fmap. exists (Hash (ir_Attribute finding), s). split; [done|].
    rewrite (range_perm M m). apply elem_of_map_to_list. by rewrite Hmap. }
  split; [by apply (assembled_sectionHash Hash _ _ _ Hs')|].
  split; [|split]; intros c Hc.
  - eapply (assembled_hosts Hash); [exact Hs' | exact Hin | reflexivity | exact Hc].
  - eapply (assembled_users Hash); [exact Hs' | exact Hin | reflexivity | exact Hc].
  - eapply assembled_binaries; [exact Hs' | exact Hin | reflexivity | exact Hc].
Qed.

(** *** The partitions of the store do not interfere *)

Lemma attributeCacheKey_not_alertEntryKey (reportID : ReportID) (attr : Attribute)
    (alert : Alert) :
  attributeCacheKey Hash reportID attr ≠ alertEntryKey AlertID alert.
Proof.
  unfold attributeCacheKey, alertEntryKey, toAttributeCacheKey.
  intros Heq. cbv [String.append] in Heq. congruence.
Qed.

Lemma attributeCacheKey_not_reportKey (reportID reportID' : ReportID)
    (attr : Attribute) :
  attributeCacheKey Hash reportID attr ≠ (toReportKey reportID', "").
Proof.
  unfold attributeCacheKey, toReportKey, toAttributeCacheKey.
  intros Heq. cbv [String.append] in Heq. congruence.
Qed.

Lemma TakeReport_ext (x : RepositoryService) (alert : Alert) (now : Time)
    (w w' : StoreWorld) :
  outage (repo w') = outage (repo w) →
  items (repo w') !! alertEntryKey AlertID alert =
    items (repo w) !! alertEntryKey AlertID alert →
  uuids w' = uuids w → drawn w' = drawn w →
  fst (TakeReport AlertID x alert now w') = fst (TakeReport AlertID x alert now w).
Proof.
  intros Hout Hlk Hu Hd. unfold TakeReport, newReportID, uuid_New_String. cbn zeta.
  cbn [repo PutAlertEntry GetAlertEntry IsConditionalCheckErr StoreRepository
       ae_Base PKey SKey].
  unfold tryCreate, put, alertEntryKey in *. rewrite Hout, Hlk, Hu, Hd.
  destruct (outage (repo w)) as [e|] eqn:Ho; cbn.
  - destruct (isConditionalCheckErr e); [|done].
    unfold getAs, get. cbn. by rewrite Hout, Ho.
  - destruct (items (repo w) !! _) as [old|] eqn:Hl; cbn; [|done].
    destruct (expired old now); cbn; [done|].
    unfold getAs, get. rewrite Hout, Ho, Hlk, Hl. by destruct (asAlertEntry old).
Qed.

(** PutAttributeCache writes at most the record under the key of its pair,
    in every state of the store; so it changes neither what TakeReport
    returns for any alert nor what GetReport returns for any report. *)
Theorem PutAttributeCache_writes_own_key_only (x : RepositoryService)
    (reportID : ReportID) (attr : Attribute) (now : Time) (w : StoreWorld) :
  let w' := snd (PutAttributeCache Hash x reportID attr now w) in
  (∀ key, key ≠ attributeCacheKey Hash reportID attr →
          items (repo w') !! key = items (repo w) !! key) ∧
  outage (repo w') = outage (repo w) ∧
  (∀ x' alert now',
     fst (TakeReport AlertID x' alert now' w') = fst (TakeReport AlertID x' alert now' w)) ∧
  (∀ x' reportID', GetReport x' reportID' w' = GetReport x' reportID' w).
Proof.
  cbn zeta.
  assert (Hframe :
    (∀ key, key ≠ attributeCacheKey Hash reportID attr →
       items (repo (snd (PutAttributeCache Hash x reportID attr now w))) !! key
       = items (repo w) !! key) ∧
    outage (repo (snd (PutAttributeCache Hash x reportID attr now w)))
      = outage (repo w) ∧
    uuids (snd (PutAttributeCache Hash x reportID attr now w)) = uuids w ∧
    drawn (snd (PutAttributeCache Hash x reportID attr now w)) = drawn w).
  { unfold PutAttributeCache, attributeCacheKey.
    cbn [repo repo_PutAttributeCache StoreRepository newAttributeCache atc_Base
         PKey SKey].
    unfold tryCreate, put.
    destruct (outage (repo w)) as [e|] eqn:Hout; cbn.
    - by destruct (isConditionalCheckErr e).
    - destruct (items (repo w) !! _) as [old|] eqn:Hlk; cbn.
      + destruct (expired old now); cbn; [|done].
        split; [|done]. intros key Hne. by rewrite lookup_insert_ne.
      + split; [|done]. intros key Hne. by rewrite lookup_insert_ne. }
  destruct Hframe as (Hitems & Hout & Hu & Hd).
  split; [exact Hitems|]. split; [exact Hout|]. split.
  - intros x' alert now'. apply TakeReport_ext; [done| |done|done].
    apply Hitems. intros Heq. by apply (attributeCacheKey_not_alertEntryKey reportID attr alert).
  - intros x' reportID'. unfold GetReport.
    cbn [repo_GetReport StoreRepository]. unfold getAs, get.
    rewrite Hout, Hitems; [done|].
    intros Heq. by apply (attributeCacheKey_not_reportKey reportID reportID' attr).
Qed.

End ServiceProperties.

(** ** Properties of the feedbackAttribute handler *)

Section HandlerProperties.

Context {ReportHost ReportUser ReportBinary Alert : Type}.
Variable Hash : Attribute -> string.

Local Abbreviation error := (@error ReportHost ReportUser ReportBinary Alert).
Local Abbreviation Store := (@Store ReportHost ReportUser ReportBinary Alert).
Local Abbreviation Item := (@Item ReportHost ReportUser ReportBinary Alert).
Local Abbreviation Channel := (@Channel ReportHost ReportUser ReportBinary Alert).
Local Abbreviation StoreEnv := (@Env Store Channel).
Local Abbreviation ReportAttribute := (@ReportAttribute).
Local Abbreviation Arguments := (@Arguments ReportHost ReportUser ReportBinary Alert).

Variable json_Unmarshal_ReportAttribute : string -> ReportAttribute + error.

Lemma live_insert_eq (s : Store) key (it : Item) now :
  live (mkStore (<[key := it]> (items s)) None) key now = negb (expired it now).
Proof. unfold live. cbn. by rewrite lookup_insert_eq. Qed.

Lemma live_insert_ne (s : Store) key key' (it : Item) now :
  key ≠ key' →
  live (mkStore (<[key := it]> (items s)) None) key' now = live s key' now.
Proof. intros Hne. unfold live. cbn. by rewrite lookup_insert_ne. Qed.

Lemma newAttributeCache_not_expired (x : RepositoryService) reportID attr now :
  0 <= ttl x →
  expired (ItAttributeCache (Alert:=Alert) (ReportHost:=ReportHost)
             (ReportUser:=ReportUser) (ReportBinary:=ReportBinary)
             (newAttributeCache Hash x reportID attr now)) now = false.
Proof.
  intros Httl. unfold expired. cbn. apply Z.ltb_ge.
  unfold Unix, Add. cbn. apply Z.div_le_mono; unfold Second; lia.
Qed.

Lemma feedAttributes_invariant (x : RepositoryService) (topic : string)
    (reportID : ReportID) (now : Time) (attrs : list (option Attribute))
    (env0 env : StoreEnv) (new : list (string * Task)) :
  0 <= ttl x →
  runInvariant Hash topic now env0 env new →
  ∃ new', runInvariant Hash topic now env0
            (snd (feedAttributes Hash x topic reportID now attrs env)) (new ++ new').
Proof.
  intros Httl. revert env new.
  induction attrs as [|[attr|] attrs IH]; intros env new Hinv.
  - exists []. by rewrite app_nil_r.
  - destruct Hinv as (Hout & Hbr & Hpub & Hall & Hnd & Hmono).
    cbn [feedAttributes].
    destruct (live (repo (world env)) (attributeCacheKey Hash reportID attr) now)
      eqn:Hlive.
    + rewrite (PutAttributeCache_live Hash x reportID attr now _ Hout Hlive).
      destruct env as [w c]. cbn [world sns]. apply IH.
      by repeat split.
    + rewrite (PutAttributeCache_first Hash x reportID attr now _ Hout Hlive).
      cbn [world sns Publish ChannelSNS]. rewrite Hbr.
      set (key := attributeCacheKey Hash reportID attr) in *.
      set (cache := newAttributeCache Hash x reportID attr now).
      set (task := mkTask reportID (Some attr)).
      assert (Hkeep : ∀ k, live (repo (world env)) k now = true →
                live (mkStore (<[key := ItAttributeCache cache]>
                                 (items (repo (world env)))) None) k now = true).
      { intros k Hk. destruct (decide (key = k)) as [<-|Hne].
        - rewrite live_insert_eq. unfold cache.
          by rewrite newAttributeCache_not_expired.
        - by rewrite live_insert_ne. }
      destruct (IH (mkEnv (mkWorld (mkStore (<[key := ItAttributeCache cache]>
                                               (items (repo (world env)))) None)
                             (uuids (world env)) (drawn (world env)))
                      (mkChannel (published (sns env) ++ [(topic, task)])
                         (broken (sns env))))
                  (new ++ [(topic, task)])) as [new' Hnew'].
      { split; [done|]. split; [done|]. cbn [world sns repo published].
        split; [by rewrite Hpub, app_assoc|]. split; [|split].
        - apply Forall_app. split.
          + eapply Forall_impl; [exact Hall|].
            intros pt (Htopic & a & Ha & Hb & Haft). split; [done|].
            exists a. split; [done|]. split; [done|]. by apply Hkeep.
          + constructor; [|done]. split; [done|]. exists attr. cbn.
            split; [done|]. split.
            * destruct (live (repo (world env0)) key now) eqn:Hl0; [|done].
              apply Hmono in Hl0. congruence.
            * fold key. rewrite live_insert_eq. unfold cache.
              by rewrite newAttributeCache_not_expired.
        - rewrite fmap_app. apply NoDup_app. split; [done|]. split.
          + intros pr Hin Hin'. apply list_elem_of_singleton in Hin'. subst pr.
            apply list_elem_of_fmap in Hin as (pt & Heq & Hpt).
            rewrite Forall_forall in Hall.
            destruct (Hall pt Hpt) as (_ & a & Ha & _ & Haft).
            unfold taskPair in Heq. cbn in Heq. rewrite Ha in Heq. cbn in Heq.
            injection Heq as Hrid Hh.
            unfold attributeCacheKey in Haft. rewrite <- Hrid, <- Hh in Haft.
            fold (attributeCacheKey Hash reportID attr) in Haft. fold key in Haft.
            congruence.
          + cbn. apply NoDup_singleton.
        - intros k Hk. by apply Hkeep, Hmono. }
      exists ((topic, task) :: new').
      rewrite Hbr, <- app_assoc in Hnew'. exact Hnew'.
  - exists []. by rewrite app_nil_r.
Qed.

Lemma feedMessages_invariant (x : RepositoryService) (topic : string)
    (now : Time) (msgs : list string) (env0 env : StoreEnv)
    (new : list (string * Task)) :
  0 <= ttl x →
  runInvariant Hash topic now env0 env new →
  ∃ new', runInvariant Hash topic now env0
            (snd (feedMessages Hash json_Unmarshal_ReportAttribute x topic now msgs env))
            (new ++ new').
Proof.
  intros Httl. revert env new.
  induction msgs as [|msg msgs IH]; intros env new Hinv.
  - exists []. by rewrite app_nil_r.
  - cbn [feedMessages].
    destruct (json_Unmarshal_ReportAttribute msg) as [ra|e].
    + destruct (feedAttributes_invariant x topic (ra_ReportID ra) now
                  (ra_Attributes ra) env0 env new Httl Hinv) as [new1 Hinv1].
      destruct (feedAttributes Hash x topic (ra_ReportID ra) now
                  (ra_Attributes ra) env) as [ex env1].
      cbn [snd] in Hinv1. destruct ex.
      * destruct (IH env1 (new ++ new1) Hinv1) as [new2 Hinv2].
        exists (new1 ++ new2). by rewrite app_assoc.
      * by exists new1.
      * by exists new1.
    + exists []. by rewrite app_nil_r.
Qed.

(** One run of the handler, with neither the store nor the channel failing
    and a TTL that is not negative, publishes on the task topic, and at most
    once for each (report, attribute hash) pair, however often the pair
    occurs in the messages of the run, and only for pairs whose
    AttributeCache was not live before the run; it leaves each published
    pair's AttributeCache live. This holds however the run ends. *)
Theorem handleRequest_dispatches_each_pair_once (args : Arguments)
    (x : RepositoryService) (msgs : list string) (now : Time) (env : StoreEnv) :
  Repository_ args = inl x →
  DecapSQSEvent args = inl msgs →
  0 <= ttl x →
  outage (repo (world env)) = None →
  broken (sns env) = None →
  let env' := snd (handleRequest Hash json_Unmarshal_ReportAttribute args now env) in
  ∃ new : list (string * Task),
    published (sns env') = published (sns env) ++ new ∧
    NoDup (taskPair Hash <$> new) ∧
    Forall (dispatchedInRun Hash (TaskTopic args) now
              (repo (world env)) (repo (world env'))) new.
Proof.
  intros Hrepo Hmsgs Httl Hout Hbr. unfold handleRequest. rewrite Hrepo, Hmsgs.
  destruct (feedMessages_invariant x (TaskTopic args) now msgs env env [] Httl)
    as [new Hinv].
  { repeat split; try done; [by rewrite app_nil_r | constructor]. }
  destruct Hinv as (_ & _ & Hpub & Hall & Hnd & _).
  exists new. by repeat split.
Qed.

Lemma runInvariant_start (topic : string) (now : Time) (env : StoreEnv) :
  outage (repo (world env)) = None → broken (sns env) = None →
  runInvariant Hash topic now env env [].
Proof.
  intros Hout Hbr. repeat split; try done; [by rewrite app_nil_r | constructor].
Qed.

Lemma feedAttributes_publishes_new (x : RepositoryService) (topic : string)
    (reportID : ReportID) (now : Time) (attrs : list (option Attribute))
    (env0 env : StoreEnv) (new : list (string * Task)) :
  outage (repo (world env)) = None → broken (sns env) = None →
  everyNewPairPublished Hash now env0 env new →
  ∃ new', everyNewPairPublished Hash now env0
            (snd (feedAttributes Hash x topic reportID now attrs env)) (new ++ new') ∧
          published (sns (snd (feedAttributes Hash x topic reportID now attrs env)))
            = published (sns env) ++ new' ∧
          outage (repo (world (snd (feedAttributes Hash x topic reportID now attrs env))))
            = None ∧
          broken (sns (snd (feedAttributes Hash x topic reportID now attrs env))) = None.
Proof.
  revert env new.
  induction attrs as [|[attr|] attrs IH]; intros env new Hout Hbr Hnew.
  - exists []. rewrite !app_nil_r. by repeat split.
  - cbn [feedAttributes].
    destruct (live (repo (world env)) (attributeCacheKey Hash reportID attr) now)
      eqn:Hlive.
    + rewrite (PutAttributeCache_live Hash x reportID attr now _ Hout Hlive).
      destruct env as [w c]. cbn [world sns]. by apply IH.
    + rewrite (PutAttributeCache_first Hash x reportID attr now _ Hout Hlive).
      cbn [world sns Publish ChannelSNS]. rewrite Hbr.
      set (task := mkTask reportID (Some attr)).
      match goal with
      | |- context [feedAttributes _ _ _ _ _ _ ?e1] =>
          destruct (IH e1 (new ++ [(topic, task)])) as (new' & Hn & Hp & Ho & Hb);
            [done | done | | ]
      end.
      * intros rid' attr' Hl Hl0. cbn [world repo] in Hl.
        destruct (decide (attributeCacheKey Hash reportID attr
                          = attributeCacheKey Hash rid' attr')) as [Heq|Hne].
        -- exists (topic, task). split; [apply elem_of_app; right; left|].
           unfold attributeCacheKey, toAttributeCacheKey in Heq.
           injection Heq as Hrid Hh. change (reportID = rid') in Hrid.
           unfold taskPair. cbn. by rewrite Hrid, Hh.
        -- rewrite live_insert_ne in Hl by done.
           destruct (Hnew rid' attr' Hl Hl0) as (pt & Hpt & Hpair).
           exists pt. split; [apply elem_of_app; by left | done].
      * exists ((topic, task) :: new').
        split; [by rewrite <- app_assoc in Hn|].
        split; [|done]. rewrite Hp. cbn [published sns]. by rewrite <- app_assoc.
  - exists []. rewrite !app_nil_r. by repeat split.
Qed.

Lemma feedAttributes_caches_all (x : RepositoryService) (topic : string)
    (reportID : ReportID) (now : Time) (attrs : list (option Attribute))
    (env env' : StoreEnv) :
  0 <= ttl x →
  outage (repo (world env)) = None → broken (sns env) = None →
  feedAttributes Hash x topic reportID now attrs env = (Done, env') →
  (∀ attr, Some attr ∈ attrs →
           live (repo (world env')) (attributeCacheKey Hash reportID attr) now = true) ∧
  (∀ key, live (repo (world env)) key now = true →
          live (repo (world env')) key now = true).
Proof.
  intros Httl Hout Hbr Hrun.
  assert (Hmono : ∀ key, live (repo (world env)) key now = true →
                         live (repo (world env')) key now = true).
  { destruct (feedAttributes_invariant x topic reportID now attrs env env []
                Httl (runInvariant_start topic now env Hout Hbr)) as [new' Hinv].
    rewrite Hrun in Hinv. apply Hinv. }
  split; [|exact Hmono]. clear Hmono.
  revert env Hout Hbr Hrun.
  induction attrs as [|[a|] attrs IH]; intros env Hout Hbr Hrun attr Hin.
  - by apply elem_of_nil in Hin.
  - cbn [feedAttributes] in Hrun.
    destruct (live (repo (world env)) (attributeCacheKey Hash reportID a) now)
      eqn:Hlive.
    + rewrite (PutAttributeCache_live Hash x reportID a now _ Hout Hlive) in Hrun.
      destruct env as [w c]. cbn [world sns] in *.
      apply elem_of_cons in Hin as [[= ->]|Hin]; [|by apply (IH (mkEnv w c))].
      destruct (feedAttributes_invariant x topic reportID now attrs _ _ []
                  Httl (runInvariant_start topic now (mkEnv w c) Hout Hbr))
        as [new' Hinv].
      rewrite Hrun in Hinv. by apply Hinv.
    + rewrite (PutAttributeCache_first Hash x reportID a now _ Hout Hlive) in Hrun.
      cbn [world sns Publish ChannelSNS] in Hrun. rewrite Hbr in Hrun.
      apply elem_of_cons in Hin as [[= ->]|Hin];
        [|by eapply IH; [| |exact Hrun|exact Hin]].
      match type of Hrun with
      | feedAttributes _ _ _ _ _ _ ?e1 = _ =>
          destruct (feedAttributes_invariant x topic reportID now attrs e1 e1 []
                      Httl (runInvariant_start topic now e1 eq_refl eq_refl))
            as [new' Hinv]
      end.
      rewrite Hrun in Hinv. apply Hinv. cbn [world repo].
      rewrite live_insert_eq. by rewrite newAttributeCache_not_expired.
  - discriminate Hrun.
Qed.

Lemma feedMessages_publishes_new (x : RepositoryService) (topic : string)
    (now : Time) (msgs : list string) (env0 env : StoreEnv)
    (new : list (string * Task)) :
  outage (repo (world env)) = None → broken (sns env) = None →
  everyNewPairPublished Hash now env0 env new →
  ∃ new', everyNewPairPublished Hash now env0
            (snd (feedMessages Hash json_Unmarshal_ReportAttribute x topic now msgs env))
            (new ++ new') ∧
          published (sns (snd (feedMessages Hash json_Unmarshal_ReportAttribute
                                 x topic now msgs env)))
            = published (sns env) ++ new'.
Proof.
  revert env new.
  induction msgs as [|msg msgs IH]; intros env new Hout Hbr Hnew.
  - exists []. by rewrite !app_nil_r.
  - cbn [feedMessages].
    destruct (json_Unmarshal_ReportAttribute msg) as [ra|e];
      [|exists []; by rewrite !app_nil_r].
    destruct (feedAttributes_publishes_new x topic (ra_ReportID ra) now
                (ra_Attributes ra) env0 env new Hout Hbr Hnew)
      as (new1 & Hn1 & Hp1 & Ho1 & Hb1).
    destruct (feedAttributes Hash x topic (ra_ReportID ra) now (ra_Attributes ra) env)
      as [ex env1].
    cbn [snd] in *. destruct ex; [|by exists new1|by exists new1].
    destruct (IH env1 (new ++ new1) Ho1 Hb1 Hn1) as (new2 & Hn2 & Hp2).
    exists (new1 ++ new2). rewrite !app_assoc. split; [done|].
    by rewrite Hp2, Hp1.
Qed.

Lemma feedMessages_caches_all (x : RepositoryService) (topic : string)
    (now : Time) (msgs : list string) (env env' : StoreEnv) :
  0 <= ttl x →
  outage (repo (world env)) = None → broken (sns env) = None →
  feedMessages Hash json_Unmarshal_ReportAttribute x topic now msgs env = (Done, env') →
  ∀ msg ra attr,
    msg ∈ msgs → json_Unmarshal_ReportAttribute msg = inl ra →
    Some attr ∈ ra_Attributes ra →
    live (repo (world env')) (attributeCacheKey Hash (ra_ReportID ra) attr) now = true.
Proof.
  intros Httl. revert env.
  induction msgs as [|m msgs IH]; intros env Hout Hbr Hrun msg ra attr Hin Hdec Hattr.
  - by apply elem_of_nil in Hin.
  - cbn [feedMessages] in Hrun.
    destruct (json_Unmarshal_ReportAttribute m) as [ra'|e] eqn:Hm; [|discriminate Hrun].
    destruct (feedAttributes_invariant x topic (ra_ReportID ra') now
                (ra_Attributes ra') env env [] Httl
                (runInvariant_start topic now env Hout Hbr))
      as (new1 & Ho1 & Hb1 & _).
    destruct (feedAttributes Hash x topic (ra_ReportID ra') now (ra_Attributes ra') env)
      as [ex env1] eqn:Hfa.
    cbn [snd] in *. destruct ex; [|discriminate Hrun|discriminate Hrun].
    apply elem_of_cons in Hin as [->|Hin]; [|by eapply (IH env1)].
    rewrite Hm in Hdec. injection Hdec as <-.
    destruct (feedAttributes_caches_all x topic (ra_ReportID ra') now
                (ra_Attributes ra') env env1 Httl Hout Hbr Hfa) as [Hall _].
    destruct (feedMessages_invariant x topic now msgs env1 env1 [] Httl
                (runInvariant_start topic now env1 Ho1 Hb1)) as [new2 Hinv].
    rewrite Hrun in Hinv. apply Hinv. by apply Hall.
Qed.

(** A run of the handler that returns nil, with neither the store nor the
    channel failing and a TTL that is not negative, leaves the
    AttributeCache of every attribute of every message live, and has
    published a task for every pair whose AttributeCache was not live before
    the run. *)
Theorem handleRequest_done_dispatches_every_new_pair (args : Arguments)
    (x : RepositoryService) (msgs : list string) (now : Time)
    (env env' : StoreEnv) :
  Repository_ args = inl x →
  DecapSQSEvent args = inl msgs →
  0 <= ttl x →
  outage (repo (world env)) = None →
  broken (sns env) = None →
  handleRequest Hash json_Unmarshal_ReportAttribute args now env = (Done, env') →
  ∃ new : list (string * Task),
    published (sns env') = published (sns env) ++ new ∧
    ∀ msg ra attr,
      msg ∈ msgs → json_Unmarshal_ReportAttribute msg = inl ra →
      Some attr ∈ ra_Attributes ra →
      live (repo (world env')) (attributeCacheKey Hash (ra_ReportID ra) attr) now = true ∧
      (live (repo (world env)) (attributeCacheKey Hash (ra_ReportID ra) attr) now = false →
       ∃ pt, pt ∈ new ∧ taskPair Hash pt = (ra_ReportID ra, Some (Hash attr))).
Proof.
  intros Hrepo Hmsgs Httl Hout Hbr. unfold handleRequest. rewrite Hrepo, Hmsgs.
  intros Hrun.
  destruct (feedMessages_publishes_new x (TaskTopic args) now msgs env env []
              Hout Hbr) as (new & Hnew & Hpub).
  { intros rid attr Hl Hl0. congruence. }
  rewrite Hrun in Hnew, Hpub. cbn [snd app] in Hnew, Hpub.
  exists new. split; [done|]. intros msg ra attr Hin Hdec Hattr.
  pose proof (feedMessages_caches_all x (TaskTopic args) now msgs env env'
                Httl Hout Hbr Hrun msg ra attr Hin Hdec Hattr) as Hlive.
  split; [done|]. intros Hl0. by apply Hnew.
Qed.

(** A task whose publish fails is not published by a later run either: the
    AttributeCache is written before the publish, so the run that fails
    returns the error of the channel with the cache in the store, and a
    second run for the same message within the TTL, the channel working
    again, finds the attribute cached, publishes nothing and returns nil. *)
Theorem handleRequest_failed_publish_is_not_retried (args : Arguments)
    (x : RepositoryService) (msg : string) (reportID : ReportID)
    (attr : Attribute) (now1 now2 : Time) (env : StoreEnv) (e : error) :
  Repository_ args = inl x →
  DecapSQSEvent args = inl [msg] →
  json_Unmarshal_ReportAttribute msg = inl (mkReportAttribute reportID [Some attr]) →
  outage (repo (world env)) = None →
  live (repo (world env)) (attributeCacheKey Hash reportID attr) now1 = false →
  broken (sns env) = Some e →
  Unix now2 <= Unix (Add now1 (ttl x)) →
  ∃ env1 : StoreEnv,
    handleRequest Hash json_Unmarshal_ReportAttribute args now1 env = (Failed e, env1) ∧
    published (sns env1) = published (sns env) ∧
    handleRequest Hash json_Unmarshal_ReportAttribute args now2
      (mkEnv (world env1) (mkChannel (published (sns env1)) None)) =
    (Done, mkEnv (world env1) (mkChannel (published (sns env)) None)).
Proof.
  intros Hrepo Hmsgs Hdec Hout Hvac Hbr Hwin.
  unfold handleRequest. rewrite Hrepo, Hmsgs. cbn [feedMessages]. rewrite Hdec.
  cbn [ra_ReportID ra_Attributes feedAttributes].
  rewrite (PutAttributeCache_first Hash x reportID attr now1 _ Hout Hvac).
  cbn [world sns Publish ChannelSNS]. rewrite Hbr.
  eexists. split; [reflexivity|]. cbn [sns world]. split; [done|].
  rewrite PutAttributeCache_live; [done|done|].
  cbn [repo]. rewrite live_insert_eq. unfold expired. cbn.
  apply negb_true_iff, Z.ltb_ge. exact Hwin.
Qed.

End HandlerProperties.

Section HandlerStructure.

Context {ReportHost ReportUser ReportBinary Alert : Type}.
Variable Hash : Attribute -> string.
Context {R : Type} `{!@Repository ReportHost ReportUser ReportBinary Alert R}.
Context {S : Type} `{!@SNSService ReportHost ReportUser ReportBinary Alert S}.

Local Abbreviation error := (@error ReportHost ReportUser ReportBinary Alert).
Local Abbreviation Arguments := (@Arguments ReportHost ReportUser ReportBinary Alert).

Variable json_Unmarshal_ReportAttribute : string -> ReportAttribute + error.

Lemma feedMessages_app (x : RepositoryService) (topic : string) (now : Time)
    (msgs1 msgs2 : list string) (env : @Env R S) :
  feedMessages Hash json_Unmarshal_ReportAttribute x topic now (msgs1 ++ msgs2) env =
  match feedMessages Hash json_Unmarshal_ReportAttribute x topic now msgs1 env with
  | (Done, env1) =>
      feedMessages Hash json_Unmarshal_ReportAttribute x topic now msgs2 env1
  | stopped => stopped
  end.
Proof.
  revert env. induction msgs1 as [|msg msgs1 IH]; intros env; [done|].
  cbn [app feedMessages].
  destruct (json_Unmarshal_ReportAttribute msg) as [ra|e]; [|done].
  destruct (feedAttributes Hash x topic (ra_ReportID ra) now (ra_Attributes ra) env)
    as [[| |] env1]; [apply IH|done|done].
Qed.

(** The handler takes the messages in order and stops at the first that
    does not decode: whatever repository and channel it runs on, the
    messages before it are handled as if they were the whole event, the
    error returned wraps the decoding error and carries the message, and the
    messages after it change nothing. *)
Theorem handleRequest_stops_at_undecodable_message (x : RepositoryService)
    (topic : string) (now : Time) (before after : list string) (bad : string)
    (e : error) (env : @Env R S) :
  json_Unmarshal_ReportAttribute bad = inr e →
  handleRequest Hash json_Unmarshal_ReportAttribute
    (mkArguments (inl x) (inl (before ++ bad :: after)) topic) now env =
  match handleRequest Hash json_Unmarshal_ReportAttribute
          (mkArguments (inl x) (inl before) topic) now env with
  | (Done, env1) =>
      (Failed (With (errors_Wrap e "Unmarshal ReportAttribute") "msg" (VString bad)),
       env1)
  | stopped => stopped
  end.
Proof.
  intros Hbad. unfold handleRequest.
  cbn [Repository_ DecapSQSEvent TaskTopic]. rewrite feedMessages_app.
  destruct (feedMessages _ _ x topic now before env) as [[| |] env1]; [|done|done].
  cbn [feedMessages]. by rewrite Hbad.
Qed.

End HandlerStructure.

(** ** Stream events, the request context and the mock client *)

Lemma HasPrefix_iff (s pre : string) :
  HasPrefix s pre = true ↔ ∃ rest, s = pre +:+ rest.
Proof.
  revert s. induction pre as [|a pre IH]; intros s.
  - split; [intros _; by exists s | by destruct s].
  - destruct s as [|b s]; cbn [HasPrefix].
    + split; [done|]. intros [rest Hrest]. discriminate Hrest.
    + case_decide as Hab.
      * subst b. rewrite IH. split; intros [rest Hrest]; exists rest.
        -- by rewrite Hrest.
        -- by injection Hrest.
      * split; [done|]. intros [rest Hrest]. injection Hrest as Heq _.
        by destruct Hab.
Qed.

(** IsReportStreamEvent returns true exactly on the records whose partition
    key is a string that toReportKey makes; it returns false on the keys of
    the other four kinds of record, whatever the identifiers, and when the
    record has no partition key; it panics exactly when the partition key is
    not a string. *)
Theorem IsReportStreamEvent_recognizes_report_keys (DynamoPKeyName : string)
    (keys : gmap string DynamoDBAttributeValue) :
  (IsReportStreamEvent DynamoPKeyName keys = Returns true ↔
     ∃ reportID, keys !! DynamoPKeyName = Some (StringValue (toReportKey reportID))) ∧
  (∀ id, keys !! DynamoPKeyName = Some (StringValue ("alertmap/" +:+ id)) →
         IsReportStreamEvent DynamoPKeyName keys = Returns false) ∧
  (∀ id, keys !! DynamoPKeyName = Some (StringValue ("alert/" +:+ id)) →
         IsReportStreamEvent DynamoPKeyName keys = Returns false) ∧
  (∀ id, keys !! DynamoPKeyName = Some (StringValue ("content/" +:+ id)) →
         IsReportStreamEvent DynamoPKeyName keys = Returns false) ∧
  (∀ id, keys !! DynamoPKeyName = Some (StringValue (toAttributeCacheKey id)) →
         IsReportStreamEvent DynamoPKeyName keys = Returns false) ∧
  (keys !! DynamoPKeyName = None →
         IsReportStreamEvent DynamoPKeyName keys = Returns false) ∧
  ((∃ reason, IsReportStreamEvent DynamoPKeyName keys = Panics reason) ↔
     keys !! DynamoPKeyName = Some NonStringValue).
Proof.
  unfold IsReportStreamEvent, toReportKey, toAttributeCacheKey.
  split; [|repeat split].
  - destruct (keys !! DynamoPKeyName) as [[s|]|]; cbn.
    + split.
      * intros [= Hp]. apply HasPrefix_iff in Hp as [rest ->]. by exists rest.
      * intros [rid [= ->]]. f_equal. apply HasPrefix_iff. by exists rid.
    + split; [done|]. by intros [? ?].
    + split; [done|]. by intros [? ?].
  - by intros id ->.
  - by intros id ->.
  - by intros id ->.
  - by intros id ->.
  - by intros ->.
  - destruct (keys !! DynamoPKeyName) as [[s|]|]; cbn; by intros [? ?].
  - by intros ->; eexists.
Qed.

Section ApiProperties.

Context {HandlerArguments : Type}.

(** In a context the SetupRoute middleware has prepared, getRequestID
    returns the request ID drawn for the request and getArguments the bound
    arguments, whatever the context held before, and the other keys of the
    context are untouched; outside of it, each returns without a panic
    exactly when a value of its type is under its key. *)
Theorem bindRequest_then_get (args : option HandlerArguments) (reqID : string)
    (c : gmap string (@ginValue HandlerArguments)) :
  getRequestID (bindRequest args reqID c) = Returns reqID ∧
  getArguments (bindRequest args reqID c) = Returns args ∧
  (∀ key, key ≠ contextArgumentKey → key ≠ contextRequestID →
          bindRequest args reqID c !! key = c !! key) ∧
  (∀ s, getRequestID c = Returns s ↔ c !! contextRequestID = Some (GinString s)) ∧
  (∀ a, getArguments c = Returns a ↔ c !! contextArgumentKey = Some (PtrArguments a)).
Proof.
  unfold bindRequest, getRequestID, getArguments.
  split; [|split; [|split; [|split]]].
  - rewrite lookup_insert_ne by done. by rewrite lookup_insert_eq.
  - by rewrite lookup_insert_eq.
  - intros key Ha Hr. by rewrite !lookup_insert_ne.
  - intros s. destruct (c !! contextRequestID) as [[| |]|]; split; congruence.
  - intros a. destruct (c !! contextArgumentKey) as [[| |]|]; split; congruence.
Qed.

End ApiProperties.

Section MockProperties.

Context {StartExecutionInput GoError : Type}.

(** The mock client keeps every input it is started with, nil ones too, in
    the order of the calls, after what it held; each call returns an empty
    output and no error, and the region stays what the client was made
    with. *)
Theorem StartExecutionEach_records_inputs
    (x : @SFnClient StartExecutionInput)
    (inputs : list (option StartExecutionInput)) :
  StartExecutionEach (GoError:=GoError) x inputs =
  (mkSFnClient (region x) (Input x ++ inputs),
   replicate (length inputs) (Some (mkStartExecutionOutput None None), None)).
Proof.
  revert x. induction inputs as [|input inputs IH]; intros x; cbn.
  - rewrite app_nil_r. by destruct x.
  - rewrite IH. cbn. by rewrite <- app_assoc.
Qed.

End MockProperties.

(** ** The further properties on the scenario *)

Lemma remapSection_one_section_per_hash_witness :
  let irs := [Scenario.F1; Scenario.F2; Scenario.F3] in
  let hashes := remove_dups ((Scenario.Hash ∘ ir_Attribute) <$> irs) in
  snd (remapSection (Alert:=Scenario.Alert) Scenario.Hash keyOrder irs) = None ∧
  fst (remapSection (Alert:=Scenario.Alert) Scenario.Hash keyOrder irs)
    ≡ₚ omap (fun h => assembled Scenario.Hash h irs) hashes ∧
  length (fst (remapSection (Alert:=Scenario.Alert) Scenario.Hash keyOrder irs))
    = length hashes.
Proof.
  apply (remapSection_one_section_per_hash (Alert:=Scenario.Alert) Scenario.Hash
           keyOrder [Scenario.F1; Scenario.F2; Scenario.F3]).
  repeat constructor.
Defined.

Lemma TakeReport_writes_own_key_only_witness :
  let w' := snd (TakeReport Scenario.AlertID Scenario.service Scenario.alert
                   Scenario.t0 Scenario.emptyWorld) in
  items (repo w') !! ("report/report-0", "") =
    items (repo Scenario.emptyWorld) !! ("report/report-0", "") ∧
  outage (repo w') = outage (repo Scenario.emptyWorld).
Proof.
  apply (TakeReport_writes_own_key_only Scenario.AlertID Scenario.service
           Scenario.alert Scenario.t0 Scenario.emptyWorld ("report/report-0", "")).
  discriminate.
Defined.

Lemma TakeReport_window_in_seconds_witness :
  ∃ (r1 r2 : Report) (w' : Scenario.World),
    TakeReportEach Scenario.AlertID (NewRepositoryService 3600) Scenario.alert
      [Scenario.t0; Scenario.after 3600] Scenario.emptyWorld =
      ([(Some r1, None); (Some r2, None)], w') ∧
    Status r1 = StatusNew ∧
    (Unix (Scenario.after 3600) <= Unix Scenario.t0 + 3600 →
     Status r2 = StatusMore ∧ ID r2 = ID r1) ∧
    (Unix Scenario.t0 + 3600 < Unix (Scenario.after 3600) → Status r2 = StatusNew).
Proof.
  apply (TakeReport_window_in_seconds Scenario.AlertID 3600 Scenario.alert
           Scenario.t0 (Scenario.after 3600) Scenario.emptyWorld);
    [lia | reflexivity | reflexivity].
Defined.

Lemma TakeReport_negative_ttl_never_merges_witness :
  ∃ (r1 r2 : Report) (w' : Scenario.World),
    TakeReportEach Scenario.AlertID (NewRepositoryService 9223372037)
      Scenario.alert [Scenario.t0; Scenario.t0] Scenario.emptyWorld =
      ([(Some r1, None); (Some r2, None)], w') ∧
    Status r1 = StatusNew ∧ Status r2 = StatusNew ∧
    ID r1 = uuids Scenario.emptyWorld (drawn Scenario.emptyWorld) ∧
    ID r2 = uuids Scenario.emptyWorld (S (drawn Scenario.emptyWorld)).
Proof.
  apply (TakeReport_negative_ttl_never_merges Scenario.AlertID
           (NewRepositoryService 9223372037) Scenario.alert
           Scenario.t0 Scenario.t0 Scenario.emptyWorld);
    [by vm_compute | lia | reflexivity | reflexivity].
Defined.

Lemma SaveAlertCache_then_FetchAlertCache_witness :
  ∃ (w1 : Scenario.World) (alerts' : list Scenario.Alert),
    SaveAlertCache Run.marshalAlert Scenario.service "report-0" Scenario.alert
      Scenario.t0 Scenario.emptyWorld = (None, w1) ∧
    fst (FetchAlertCache Run.unmarshalAlert Scenario.service "report-0" w1)
      = (alerts', None) ∧
    alerts' ≡ₚ [Scenario.alert].
Proof.
  apply (SaveAlertCache_then_FetchAlertCache Run.marshalAlert Run.unmarshalAlert
           Scenario.service "report-0" Scenario.alert Scenario.t0
           Scenario.emptyWorld "edr/malware/host-1" []);
    reflexivity.
Defined.

Lemma FetchAlertCache_fails_on_undecodable_cache_witness :
  ∃ e', fst (FetchAlertCache Run.unmarshalAlert Scenario.service "report-0"
               Run.corruptWorld) = ([], Some e').
Proof.
  apply (FetchAlertCache_fails_on_undecodable_cache Run.unmarshalAlert
           Scenario.service "report-0" Run.corruptWorld [Run.corruptCache]
           Run.corruptCache (Foreign "invalid character"));
    [by vm_compute | left | reflexivity].
Defined.

Lemma PutReport_then_GetReport_witness :
  fst (PutReport Scenario.service Run.report Scenario.emptyWorld) = None ∧
  GetReport Scenario.service "report-0"
    (snd (PutReport Scenario.service Run.report Scenario.emptyWorld)) =
    if decide ("report-0" = ID Run.report) then (Some Run.report, None)
    else GetReport Scenario.service "report-0" Scenario.emptyWorld.
Proof.
  apply (PutReport_then_GetReport Scenario.service Run.report "report-0"
           Scenario.emptyWorld).
  reflexivity.
Defined.

Lemma SaveInspectReport_then_FetchInspectReport_witness :
  ∃ (w1 : Scenario.World) (sections : list Scenario.Section_) (s : Scenario.Section_),
    SaveInspectReport Scenario.Hash Run.marshalFinding Scenario.service Scenario.F1
      Scenario.t0 Scenario.emptyWorld = (None, w1) ∧
    fst (FetchInspectReport Scenario.Hash Run.unmarshalFinding keyOrder
           Scenario.service (ir_ReportID Scenario.F1) w1) = (sections, None) ∧
    s ∈ sections ∧
    sectionHash Scenario.Hash s = Some (Scenario.Hash (ir_Attribute Scenario.F1)) ∧
    (∀ c, hostOf Scenario.F1 = Some c → c ∈ Hosts s) ∧
    (∀ c, userOf Scenario.F1 = Some c → c ∈ Users s) ∧
    (∀ c, binaryOf Scenario.F1 = Some c → c ∈ Binaries s).
Proof.
  apply (SaveInspectReport_then_FetchInspectReport Scenario.Hash
           Run.marshalFinding Run.unmarshalFinding keyOrder Scenario.service
           Scenario.F1 Scenario.t0 Scenario.emptyWorld "r|ipaddr:src_ip=10.0.0.1");
    reflexivity.
Defined.

Lemma handleRequest_dispatches_each_pair_once_witness :
  let env' := snd (handleRequest Scenario.Hash Run.unmarshalReportAttribute
                     (Run.args ["first"; "second"]) Scenario.t0 Run.env) in
  ∃ new : list (string * Task),
    published (sns env') = published (sns Run.env) ++ new ∧
    NoDup (taskPair Scenario.Hash <$> new) ∧
    Forall (dispatchedInRun Scenario.Hash "task-topic" Scenario.t0
              (repo (world Run.env)) (repo (world env'))) new.
Proof.
  apply (handleRequest_dispatches_each_pair_once Scenario.Hash
           Run.unmarshalReportAttribute (Run.args ["first"; "second"])
           Scenario.service ["first"; "second"] Scenario.t0 Run.env);
    try reflexivity. by vm_compute.
Defined.

Lemma handleRequest_done_dispatches_every_new_pair_witness :
  ∃ new : list (string * Task),
    published (sns (snd (handleRequest Scenario.Hash Run.unmarshalReportAttribute
                           (Run.args ["first"; "second"]) Scenario.t0 Run.env)))
      = published (sns Run.env) ++ new ∧
    ∀ msg ra attr,
      msg ∈ ["first"; "second"] → Run.unmarshalReportAttribute msg = inl ra →
      Some attr ∈ ra_Attributes ra →
      live (repo (world (snd (handleRequest Scenario.Hash
                                Run.unmarshalReportAttribute
                                (Run.args ["first"; "second"]) Scenario.t0 Run.env))))
        (attributeCacheKey Scenario.Hash (ra_ReportID ra) attr) Scenario.t0 = true ∧
      (live (repo (world Run.env))
         (attributeCacheKey Scenario.Hash (ra_ReportID ra) attr) Scenario.t0 = false →
       ∃ pt, pt ∈ new ∧
             taskPair Scenario.Hash pt = (ra_ReportID ra, Some (Scenario.Hash attr))).
Proof.
  apply (handleRequest_done_dispatches_every_new_pair Scenario.Hash
           Run.unmarshalReportAttribute (Run.args ["first"; "second"])
           Scenario.service ["first"; "second"] Scenario.t0 Run.env);
    try reflexivity; by vm_compute.
Defined.

Lemma handleRequest_failed_publish_is_not_retried_witness :
  ∃ env1 : Run.Env,
    handleRequest Scenario.Hash Run.unmarshalReportAttribute (Run.args ["second"])
      Scenario.t0 Run.envBrokenChannel = (Failed Scenario.throttled, env1) ∧
    published (sns env1) = published (sns Run.envBrokenChannel) ∧
    handleRequest Scenario.Hash Run.unmarshalReportAttribute (Run.args ["second"])
      (Scenario.after 60) (mkEnv (world env1) (mkChannel (published (sns env1)) None)) =
    (Done, mkEnv (world env1)
             (mkChannel (published (sns Run.envBrokenChannel)) None)).
Proof.
  apply (handleRequest_failed_publish_is_not_retried Scenario.Hash
           Run.unmarshalReportAttribute (Run.args ["second"]) Scenario.service
           "second" "report-0" Scenario.srcIP Scenario.t0 (Scenario.after 60)
           Run.envBrokenChannel Scenario.throttled);
    try reflexivity. by vm_compute.
Defined.

Lemma handleRequest_stops_at_undecodable_message_witness :
  handleRequest Scenario.Hash Run.unmarshalReportAttribute
    (mkArguments (inl Scenario.service) (inl (["first"] ++ "{" :: ["second"]))
       "task-topic") Scenario.t0 Run.env =
  match handleRequest Scenario.Hash Run.unmarshalReportAttribute
          (mkArguments (inl Scenario.service) (inl ["first"]) "task-topic")
          Scenario.t0 Run.env with
  | (Done, env1) =>
      (Failed (With (errors_Wrap (Foreign "unexpected end of JSON input")
                       "Unmarshal ReportAttribute") "msg" (VString "{")),
       env1)
  | stopped => stopped
  end.
Proof.
  apply (handleRequest_stops_at_undecodable_message Scenario.Hash
           Run.unmarshalReportAttribute Scenario.service "task-topic" Scenario.t0
           ["first"] ["second"] "{" (Foreign "unexpected end of JSON input") Run.env).
  reflexivity.
Defined.
